(** * Three-point relative pose solvers of openMVG

    A shallow embedding of
    [src/openMVG/multiview/solver_essential_three_point.cpp]:

    - [ThreePointsRelativePose], the closed-form orthographic solver
      (Oskarsson, JMIV 2017), and
    - [ThreePointUprightRelativePoseSolver_Solve], the upright solver that
      reads the essential matrix off one eigenvector of [A^T A].

    The C++ code computes on [double].  The embedding is written once over
    an interface [Scalar] of the arithmetic the code uses (literals,
    [+ - * /], unary minus, [sqrt]) and is then read at two instances:
    IEEE-754 binary64 as specified by [SpecFloat] (what the program runs
    on) and the real numbers (what its algebra is meant to compute).

    Eigen's dynamic matrices [Mat2X] and [Mat3X] are lists of columns; a
    column access outside the matrix has no defined behaviour in the source
    (an assertion in debug builds) and is the one failure of the model,
    [None] in the option monad.  The output [std::vector<Mat3>] is a list
    threaded through the calls. *)

From Stdlib Require Import List ZArith Bool Lia.
From Stdlib Require Import Reals Lra Psatz.
From Stdlib Require Import Floats.SpecFloat.
From Stdlib Require Floats.PrimFloat Floats.FloatOps.
Import ListNotations.

Set Implicit Arguments.

(* ================================================================== *)
(** * The arithmetic of the source *)

(** The operations on [double] that the translation unit uses. [lit z] is
    the floating literal written [z.0] in the source. *)
Class Scalar (T : Type) : Type := {
  lit   : Z -> T;
  sadd  : T -> T -> T;
  ssub  : T -> T -> T;
  smul  : T -> T -> T;
  sdiv  : T -> T -> T;
  sopp  : T -> T;
  ssqrt : T -> T
}.

Declare Scope scalar_scope.
Delimit Scope scalar_scope with S.
(* Same levels and associativity as C++: unary minus binds tighter than
   [*] and [/], which bind tighter than binary [+] and [-]; all binary
   operators associate to the left. *)
Infix "+" := sadd : scalar_scope.
Infix "-" := ssub : scalar_scope.
Infix "*" := smul : scalar_scope.
Infix "/" := sdiv : scalar_scope.
Notation "- x" := (sopp x) : scalar_scope.

(** ** IEEE-754 binary64 *)

Definition prec : Z := 53.
Definition emax : Z := 1024.

(** A [double]: sign, mantissa and exponent, the two zeros, the two
    infinities and NaN. *)
Definition double : Type := spec_float.

#[export] Instance double_Scalar : Scalar double := {|
  lit   := fun z => binary_normalize prec emax z 0 false;
  sadd  := SFadd prec emax;
  ssub  := SFsub prec emax;
  smul  := SFmul prec emax;
  sdiv  := SFdiv prec emax;
  sopp  := SFopp;
  ssqrt := SFsqrt prec emax
|}.

Definition is_nan (d : double) : bool :=
  match d with S754_nan => true | _ => false end.

Definition is_zero (d : double) : bool :=
  match d with S754_zero _ => true | _ => false end.

(** [d < 0] as the comparison of the source language would decide it. *)
Definition is_negative (d : double) : bool :=
  SFltb d (S754_zero false).

(** ** Exact real arithmetic *)

#[export] Instance R_Scalar : Scalar R := {|
  lit   := IZR;
  sadd  := Rplus;
  ssub  := Rminus;
  smul  := Rmult;
  sdiv  := Rdiv;
  sopp  := Ropp;
  ssqrt := sqrt
|}.

(* ================================================================== *)
(** * The error monad of column accesses *)

Definition bind {A B : Type} (m : option A) (k : A -> option B) : option B :=
  match m with
  | Some a => k a
  | None => None
  end.

Notation "x <- m ;; k" := (bind m (fun x => k))
  (at level 61, m at next level, right associativity).

(* ================================================================== *)
(** * Fixed-size vectors and matrices *)

Section Numeric.

Context {T : Type} {ST : Scalar T}.
Local Open Scope scalar_scope.

Record Vec2 : Type := mkVec2 { Vec2_x : T; Vec2_y : T }.
Record Vec3 : Type := mkVec3 { Vec3_x : T; Vec3_y : T; Vec3_z : T }.
Record Vec4 : Type := mkVec4 { Vec4_0 : T; Vec4_1 : T; Vec4_2 : T; Vec4_3 : T }.

(** [Mat3], written row by row as the comma initialiser of Eigen reads. *)
Record Mat3 : Type := mkMat3 {
  m00 : T; m01 : T; m02 : T;
  m10 : T; m11 : T; m12 : T;
  m20 : T; m21 : T; m22 : T
}.

(** [Eigen::Matrix<double, 3, 4>] and the 4x4 product, by rows. *)
Record Mat34 : Type := mkMat34 { A_row0 : Vec4; A_row1 : Vec4; A_row2 : Vec4 }.
Record Mat4 : Type := mkMat4 {
  M_row0 : Vec4; M_row1 : Vec4; M_row2 : Vec4; M_row3 : Vec4
}.

(** [Mat2X] and [Mat3X]: one point per column, any number of columns. *)
Definition Mat2X : Type := list Vec2.
Definition Mat3X : Type := list Vec3.

Definition Vec2_sub (u v : Vec2) : Vec2 :=
  mkVec2 (Vec2_x u - Vec2_x v) (Vec2_y u - Vec2_y v).

Definition Vec2_coeff (v : Vec2) (r : nat) : option T :=
  match r with
  | 0%nat => Some (Vec2_x v)
  | 1%nat => Some (Vec2_y v)
  | _ => None
  end.

Definition Vec4_coeff (v : Vec4) (i : nat) : T :=
  match i with
  | 0%nat => Vec4_0 v
  | 1%nat => Vec4_1 v
  | 2%nat => Vec4_2 v
  | _ => Vec4_3 v
  end.

(** [m.col(i)]. *)
Definition Mat2X_col (m : Mat2X) (i : nat) : option Vec2 := nth_error m i.
Definition Mat3X_col (m : Mat3X) (i : nat) : option Vec3 := nth_error m i.

(** [m(r, c)]. *)
Definition Mat2X_coeff (m : Mat2X) (r c : nat) : option T :=
  v <- Mat2X_col m c ;; Vec2_coeff v r.

Definition Mat3_Zero : Mat3 :=
  mkMat3 (lit 0) (lit 0) (lit 0)
         (lit 0) (lit 0) (lit 0)
         (lit 0) (lit 0) (lit 0).

(** [E(i, j)], read. *)
Definition Mat3_coeff (E : Mat3) (i j : nat) : T :=
  match i, j with
  | 0%nat, 0%nat => m00 E | 0%nat, 1%nat => m01 E | 0%nat, _ => m02 E
  | 1%nat, 0%nat => m10 E | 1%nat, 1%nat => m11 E | 1%nat, _ => m12 E
  | _, 0%nat => m20 E | _, 1%nat => m21 E | _, _ => m22 E
  end.

(** [E(i, j) = v], for the indices inside the matrix. *)
Definition Mat3_set (E : Mat3) (i j : nat) (v : T) : Mat3 :=
  match i, j with
  | 0%nat, 0%nat => mkMat3 v (m01 E) (m02 E) (m10 E) (m11 E) (m12 E) (m20 E) (m21 E) (m22 E)
  | 0%nat, 1%nat => mkMat3 (m00 E) v (m02 E) (m10 E) (m11 E) (m12 E) (m20 E) (m21 E) (m22 E)
  | 0%nat, 2%nat => mkMat3 (m00 E) (m01 E) v (m10 E) (m11 E) (m12 E) (m20 E) (m21 E) (m22 E)
  | 1%nat, 0%nat => mkMat3 (m00 E) (m01 E) (m02 E) v (m11 E) (m12 E) (m20 E) (m21 E) (m22 E)
  | 1%nat, 1%nat => mkMat3 (m00 E) (m01 E) (m02 E) (m10 E) v (m12 E) (m20 E) (m21 E) (m22 E)
  | 1%nat, 2%nat => mkMat3 (m00 E) (m01 E) (m02 E) (m10 E) (m11 E) v (m20 E) (m21 E) (m22 E)
  | 2%nat, 0%nat => mkMat3 (m00 E) (m01 E) (m02 E) (m10 E) (m11 E) (m12 E) v (m21 E) (m22 E)
  | 2%nat, 1%nat => mkMat3 (m00 E) (m01 E) (m02 E) (m10 E) (m11 E) (m12 E) (m20 E) v (m22 E)
  | 2%nat, 2%nat => mkMat3 (m00 E) (m01 E) (m02 E) (m10 E) (m11 E) (m12 E) (m20 E) (m21 E) v
  | _, _ => E
  end.

(** [A.row(i) << ...], for the rows inside the matrix. *)
Definition Mat34_set_row (A : Mat34) (i : nat) (r : Vec4) : Mat34 :=
  match i with
  | 0%nat => mkMat34 r (A_row1 A) (A_row2 A)
  | 1%nat => mkMat34 (A_row0 A) r (A_row2 A)
  | 2%nat => mkMat34 (A_row0 A) (A_row1 A) r
  | _ => A
  end.

Definition Mat34_row (A : Mat34) (i : nat) : Vec4 :=
  match i with
  | 0%nat => A_row0 A
  | 1%nat => A_row1 A
  | _ => A_row2 A
  end.

(** Entry [(i, j)] of [A.transpose() * A]: the inner product of columns
    [i] and [j] of [A]. *)
Definition AtA_coeff (A : Mat34) (i j : nat) : T :=
  Vec4_coeff (A_row0 A) i * Vec4_coeff (A_row0 A) j
  + Vec4_coeff (A_row1 A) i * Vec4_coeff (A_row1 A) j
  + Vec4_coeff (A_row2 A) i * Vec4_coeff (A_row2 A) j.

Definition AtA_row (A : Mat34) (i : nat) : Vec4 :=
  mkVec4 (AtA_coeff A i 0) (AtA_coeff A i 1) (AtA_coeff A i 2) (AtA_coeff A i 3).

Definition Mat34_transpose_mul (A : Mat34) : Mat4 :=
  mkMat4 (AtA_row A 0) (AtA_row A 1) (AtA_row A 2) (AtA_row A 3).

(** [E->emplace_back(m)]. *)
Definition emplace_back (E : list Mat3) (m : Mat3) : list Mat3 := E ++ [m].

(* ================================================================== *)
(** * The orthographic solver *)

(** The [const] locals of [ThreePointsRelativePose] (source lines 38-62),
    which the lambda [ComputeEssentialMatrix] captures by reference. *)
Record Locals : Type := mkLocals {
  xd1 : Vec2; yd1 : Vec2; xd2 : Vec2; yd2 : Vec2;
  denom : T; aac : T; aad : T; bbc : T; bbd : T;
  aac_sq : T;
  dd_2 : T; dd_1c : T; dd_0 : T;
  d4_4 : T; d4_2 : T; d4_0 : T;
  tmp : T; tmp_csol : T
}.

Definition compute_locals (x1_0 x1_1 x1_2 x2_0 x2_1 x2_2 : Vec2) : Locals :=
  let xd1 := Vec2_sub x1_1 x1_0 in
  let yd1 := Vec2_sub x1_2 x1_0 in
  let xd2 := Vec2_sub x2_1 x2_0 in
  let yd2 := Vec2_sub x2_2 x2_0 in
  let denom := Vec2_x xd1 * Vec2_y yd1 - Vec2_y xd1 * Vec2_x yd1 in
  let aac := (Vec2_y xd1 * Vec2_x yd2 - Vec2_x xd2 * Vec2_y yd1) / denom in
  let aad := (Vec2_y xd1 * Vec2_y yd2 - Vec2_y xd2 * Vec2_y yd1) / denom in
  let bbc := (Vec2_x xd2 * Vec2_x yd1 - Vec2_x xd1 * Vec2_x yd2) / denom in
  let bbd := (Vec2_y xd2 * Vec2_x yd1 - Vec2_x xd1 * Vec2_y yd2) / denom in
  let aac_sq := aac * aac in
  let dd_2 := - aac_sq + aad * aad - bbc * bbc + bbd * bbd in
  let dd_1c := lit 2 * aac * aad + lit 2 * bbc * bbd in
  let dd_0 := aac_sq + bbc * bbc - lit 1 in
  let d4_4 := dd_1c * dd_1c + dd_2 * dd_2 in
  let d4_2 := - dd_1c * dd_1c + lit 2 * dd_0 * dd_2 in
  let d4_0 := dd_0 * dd_0 in
  let tmp := ssqrt (d4_2 * d4_2 - lit 4 * d4_4 * d4_0) in
  let tmp_csol := - aac_sq + aad * aad - bbc * bbc + bbd * bbd in
  mkLocals xd1 yd1 xd2 yd2 denom aac aad bbc bbd aac_sq
           dd_2 dd_1c dd_0 d4_4 d4_2 d4_0 tmp tmp_csol.

(** The four parameters a root determines (source lines 65-70). *)
Definition dsol (L : Locals) (root : T) : T :=
  ssqrt (- root / d4_4 L / lit 2).

Definition csol (L : Locals) (root : T) : T :=
  let dsol := dsol L root in
  - (tmp_csol L * dsol * dsol + aac_sq L + bbc L * bbc L - lit 1) /
    (lit 2 * aac L * aad L * dsol + lit 2 * bbc L * bbd L * dsol).

Definition asol (L : Locals) (root : T) : T :=
  aac L * csol L root + aad L * dsol L root.

Definition bsol (L : Locals) (root : T) : T :=
  bbc L * csol L root + bbd L * dsol L root.

(** Source lines 71-72, given the four coefficients the lambda reads. *)
Definition esol (L : Locals) (root : T) (x1_00 x1_10 x2_00 x2_10 : T) : T :=
  - asol L root * x1_00 - bsol L root * x1_10 - csol L root * x2_00
  - dsol L root * x2_10.

(** The lambda [ComputeEssentialMatrix]; it reads [x1(0,0)], [x1(1,0)],
    [x2(0,0)] and [x2(1,0)] from the captured inputs. *)
Definition ComputeEssentialMatrix (L : Locals) (x1 x2 : Mat2X) (root : T)
  : option Mat3 :=
  let dsol := dsol L root in
  let csol := csol L root in
  let asol := asol L root in
  let bsol := bsol L root in
  x1_00 <- Mat2X_coeff x1 0 0 ;;
  x1_10 <- Mat2X_coeff x1 1 0 ;;
  x2_00 <- Mat2X_coeff x2 0 0 ;;
  x2_10 <- Mat2X_coeff x2 1 0 ;;
  let esol := esol L root x1_00 x1_10 x2_00 x2_10 in
  Some (mkMat3 (lit 0) (lit 0) asol
               (lit 0) (lit 0) bsol
               csol    dsol    esol).

Definition ThreePointsRelativePose (x1 x2 : Mat2X) (E : list Mat3)
  : option (list Mat3) :=
  x1_0 <- Mat2X_col x1 0 ;;
  x1_1 <- Mat2X_col x1 1 ;;
  x1_2 <- Mat2X_col x1 2 ;;
  x2_0 <- Mat2X_col x2 0 ;;
  x2_1 <- Mat2X_col x2 1 ;;
  x2_2 <- Mat2X_col x2 2 ;;
  let L := compute_locals x1_0 x1_1 x1_2 x2_0 x2_1 x2_2 in
  E1 <- ComputeEssentialMatrix L x1 x2 (d4_2 L + tmp L) ;;
  let E := emplace_back E E1 in
  E2 <- ComputeEssentialMatrix L x1 x2 (d4_2 L - tmp L) ;;
  let E := emplace_back E E2 in
  Some E.

(* ================================================================== *)
(** * The upright solver *)

(** One row of the action matrix (source lines 99-101). *)
Definition action_row (a b : Vec3) : Vec4 :=
  mkVec4 (Vec3_x a * Vec3_y b) (- Vec3_z a * Vec3_y b)
         (- Vec3_x b * Vec3_y a) (- Vec3_z b * Vec3_y a).

(** The body of the loop [for (const int i : {0,1,2})]. *)
Definition build_row (bearing_a bearing_b : Mat3X) (A : option Mat34) (i : nat)
  : option Mat34 :=
  A <- A ;;
  bearing_a_i <- Mat3X_col bearing_a i ;;
  bearing_b_i <- Mat3X_col bearing_b i ;;
  Some (Mat34_set_row A i (action_row bearing_a_i bearing_b_i)).

Definition build_action_matrix (bearing_a bearing_b : Mat3X) (A0 : Mat34)
  : option Mat34 :=
  fold_left (build_row bearing_a bearing_b) [0; 1; 2]%nat (Some A0).

(** The storage of [A] before the loop writes its three rows. *)
Definition Mat34_uninit : Mat34 :=
  let z := mkVec4 (lit 0) (lit 0) (lit 0) (lit 0) in mkMat34 z z z.

Section Upright.

(** [Eigen::SelfAdjointEigenSolver<Matrix4d>(M).eigenvectors().leftCols<1>()]:
    the eigenvector Eigen lists first, that of the smallest eigenvalue.
    Eigen is not part of the repository; the solver is a parameter. *)
Variable eigenvectors_leftCols1 : Mat4 -> Vec4.

Definition nullspace_of (A : Mat34) : Vec4 :=
  eigenvectors_leftCols1 (Mat34_transpose_mul A).

(** Source lines 107-111. *)
Definition essential_of_nullspace (nullspace : Vec4) : Mat3 :=
  let E := Mat3_Zero in
  let E := Mat3_set E 0 1 (Vec4_coeff nullspace 2) in
  let E := Mat3_set E 1 0 (- Vec4_coeff nullspace 0) in
  let E := Mat3_set E 1 2 (Vec4_coeff nullspace 1) in
  let E := Mat3_set E 2 1 (Vec4_coeff nullspace 3) in
  E.

Definition ThreePointUprightRelativePoseSolver_Solve
  (bearing_a bearing_b : Mat3X) (pvec_E : list Mat3) : option (list Mat3) :=
  A <- build_action_matrix bearing_a bearing_b Mat34_uninit ;;
  let nullspace := nullspace_of A in
  let E := essential_of_nullspace nullspace in
  Some (emplace_back pvec_E E).

End Upright.

(* ================================================================== *)
(** * The epipolar relations *)

Definition Vec3_dot (u v : Vec3) : T :=
  Vec3_x u * Vec3_x v + Vec3_y u * Vec3_y v + Vec3_z u * Vec3_z v.

Definition Vec4_dot (u v : Vec4) : T :=
  Vec4_0 u * Vec4_0 v + Vec4_1 u * Vec4_1 v + Vec4_2 u * Vec4_2 v
  + Vec4_3 u * Vec4_3 v.

Definition Mat3_mul_vec (E : Mat3) (v : Vec3) : Vec3 :=
  mkVec3 (Vec3_dot (mkVec3 (m00 E) (m01 E) (m02 E)) v)
         (Vec3_dot (mkVec3 (m10 E) (m11 E) (m12 E)) v)
         (Vec3_dot (mkVec3 (m20 E) (m21 E) (m22 E)) v).

(** [u^T * E * v]. *)
Definition bilinear (u : Vec3) (E : Mat3) (v : Vec3) : T :=
  Vec3_dot u (Mat3_mul_vec E v).

(** [v.homogeneous()]. *)
Definition Vec2_homogeneous (v : Vec2) : Vec3 :=
  mkVec3 (Vec2_x v) (Vec2_y v) (lit 1).

(** The residual of a pair of bearing vectors, [a] in frame A and [b] in
    frame B, for an upright essential matrix: [b^T * E * a]. *)
Definition upright_residual (E : Mat3) (a b : Vec3) : T :=
  bilinear b E a.

(** The residual of a pair of image points for an orthographic essential
    matrix [(0 0 a; 0 0 b; c d e)], the relation from which the solver is
    derived: [a*x1.x + b*x1.y + c*x2.x + d*x2.y + e], that is
    [x1^T * E * x2] on homogeneous coordinates. *)
Definition orthographic_residual (E : Mat3) (x1 x2 : Vec2) : T :=
  bilinear (Vec2_homogeneous x1) E (Vec2_homogeneous x2).

(** The five entries of an orthographic candidate that the layout does
    not fix to zero. *)
Definition free_entries (E : Mat3) : list T :=
  [m02 E; m12 E; m20 E; m21 E; m22 E].

End Numeric.

Arguments Vec2 : clear implicits.
Arguments Vec3 : clear implicits.
Arguments Vec4 : clear implicits.
Arguments Mat3 : clear implicits.
Arguments Mat34 : clear implicits.
Arguments Mat4 : clear implicits.
Arguments Mat2X : clear implicits.
Arguments Mat3X : clear implicits.
Arguments Locals : clear implicits.

(** Three image points on one line [a*x + b*y + c = 0]. *)
Definition collinear (p0 p1 p2 : Vec2 R) : Prop :=
  exists a b c : R,
    (a <> 0 \/ b <> 0)%R /\
    (a * Vec2_x p0 + b * Vec2_y p0 + c = 0)%R /\
    (a * Vec2_x p1 + b * Vec2_y p1 + c = 0)%R /\
    (a * Vec2_x p2 + b * Vec2_y p2 + c = 0)%R.

(** The discriminant under the square root of [tmp] (source line 61). *)
Definition discriminant {T : Type} {ST : Scalar T} (L : Locals T) : T :=
  (d4_2 L * d4_2 L - lit 4 * d4_4 L * d4_0 L)%S.

(* ================================================================== *)
(** * Sample inputs *)

Definition pt (x y : Z) : Vec2 double := mkVec2 (lit x) (lit y).

(** The unit triangle in the first image. *)
Definition triangle_x1 : Mat2X double := [pt 0 0; pt 1 0; pt 0 1].

(** A second image that an orthographic pair of views can produce. *)
Definition regular_x2 : Mat2X double := [pt 0 0; pt 1 1; pt 3 2].

(** A second image that stretches the triangle: the discriminant of the
    solver is negative. *)
Definition stretched_x2 : Mat2X double := [pt 0 0; pt 3 (-1); pt 1 2].

(** Three points of the first image on the line [y = 0]. *)
Definition collinear_x1 : Mat2X double := [pt 0 0; pt 1 0; pt 2 0].

(** Bearing vectors of three points seen from two upright cameras that
    differ by a translation along the x axis; they need not be normalised
    for the epipolar relation. *)
Definition translated_a : Mat3X R :=
  [mkVec3 1 1 2; mkVec3 3 2 1; mkVec3 0 1 1]%R.
Definition translated_b : Mat3X R :=
  [mkVec3 0 1 2; mkVec3 2 2 1; mkVec3 (-1) 1 1]%R.

(** An eigen-solver that answers with the null vector of that sample. *)
Definition translated_nullspace (M : Mat4 R) : Vec4 R :=
  (mkVec4 0 (-1) 0 1)%R.

Definition bearing (x y z : Z) : Vec3 double :=
  mkVec3 (lit x) (lit y) (lit z).

Definition upright_a : Mat3X double :=
  [bearing 1 1 2; bearing 3 2 1; bearing 0 1 1].
Definition upright_b : Mat3X double :=
  [bearing 0 1 2; bearing 2 2 1; bearing (-1) 1 1].

(** A stand-in for the eigen-solver on doubles: the first row of its
    argument. *)
Definition first_row (M : Mat4 double) : Vec4 double := M_row0 M.

(* ================================================================== *)
(** * Notions for the algebra of the candidates *)

Section Algebra.

Context {T : Type} {ST : Scalar T}.
Local Open Scope scalar_scope.

Definition Vec2_add (u v : Vec2 T) : Vec2 T :=
  mkVec2 (Vec2_x u + Vec2_x v) (Vec2_y u + Vec2_y v).

Definition Vec3_scale (k : T) (v : Vec3 T) : Vec3 T :=
  mkVec3 (k * Vec3_x v) (k * Vec3_y v) (k * Vec3_z v).

Definition Vec4_scale (k : T) (v : Vec4 T) : Vec4 T :=
  mkVec4 (k * Vec4_0 v) (k * Vec4_1 v) (k * Vec4_2 v) (k * Vec4_3 v).

Definition Mat4_mul_vec (M : Mat4 T) (v : Vec4 T) : Vec4 T :=
  mkVec4 (Vec4_dot (M_row0 M) v) (Vec4_dot (M_row1 M) v)
         (Vec4_dot (M_row2 M) v) (Vec4_dot (M_row3 M) v).

(** The determinant, expanded along the first row. *)
Definition Mat3_det (E : Mat3 T) : T :=
  m00 E * (m11 E * m22 E - m12 E * m21 E)
  - m01 E * (m10 E * m22 E - m12 E * m20 E)
  + m02 E * (m10 E * m21 E - m11 E * m20 E).

(** The argument of the square root of [dsol] (source line 66). *)
Definition dsol_radicand (L : Locals T) (root : T) : T :=
  - root / d4_4 L / lit 2.

(** The divisor of [csol] (source line 68). *)
Definition csol_divisor (L : Locals T) (root : T) : T :=
  lit 2 * aac L * aad L * dsol L root + lit 2 * bbc L * bbd L * dsol L root.

(** The coordinates of the three columns a solver reads. *)
Definition coordinates (p0 p1 p2 : Vec2 T) : list T :=
  [Vec2_x p0; Vec2_y p0; Vec2_x p1; Vec2_y p1; Vec2_x p2; Vec2_y p2].

End Algebra.

(** The real number a finite double stands for: (-1)^s * m * 2^e. *)
Definition double_to_R (d : double) : R :=
  match d with
  | S754_finite s m e =>
      let v := match e with
               | Zneg p => (IZR (Zpos m) / IZR (Z.pow_pos 2 p))%R
               | _ => IZR (Zpos m * 2 ^ e)
               end in
      if s then (- v)%R else v
  | _ => 0%R
  end.

Definition Vec2_to_R (v : Vec2 double) : Vec2 R :=
  mkVec2 (double_to_R (Vec2_x v)) (double_to_R (Vec2_y v)).

(** The double 2^-600, whose square underflows to zero. *)
Definition tiny : double := S754_finite false 4503599627370496 (-652).

(** A second image of the unit triangle on which every step of the
    solver is rational in exact arithmetic. *)
Definition unit_triangle : Mat2X R :=
  [mkVec2 0 0; mkVec2 1 0; mkVec2 0 1]%R.
Definition sheared_triangle : Mat2X R :=
  [mkVec2 0 0; mkVec2 1 0; mkVec2 1 1]%R.

(** A second image whose discriminant is zero while both roots are
    positive. *)
Definition enlarged_x2 : Mat2X double := [pt 0 0; pt 1 2; pt 1 (-2)].

(* ================================================================== *)
(** * What the solvers return, for any arithmetic *)

Section Structure.

Context {T : Type} {ST : Scalar T}.
Local Open Scope scalar_scope.

(** A matrix with at least three columns starts with them. *)
Lemma three_columns (A : Type) (m : list A) :
  (3 <= length m)%nat ->
  exists c0 c1 c2 rest, m = c0 :: c1 :: c2 :: rest.
Proof.
  destruct m as [|c0 [|c1 [|c2 rest]]]; simpl; intros H; try lia.
  now exists c0, c1, c2, rest.
Qed.

(** The columns a solver reads decide the first three entries of the
    list. *)
Lemma columns_agree (A : Type) (m m' : list A) c0 c1 c2 rest :
  m = c0 :: c1 :: c2 :: rest ->
  (forall i, (i < 3)%nat -> nth_error m i = nth_error m' i) ->
  exists rest', m' = c0 :: c1 :: c2 :: rest'.
Proof.
  intros -> H.
  pose proof (H 0%nat ltac:(lia)) as H0.
  pose proof (H 1%nat ltac:(lia)) as H1.
  pose proof (H 2%nat ltac:(lia)) as H2.
  destruct m' as [|d0 [|d1 [|d2 rest']]]; simpl in *; try discriminate.
  injection H0 as <-. injection H1 as <-. injection H2 as <-.
  now exists rest'.
Qed.

(** The candidate of one root, once the reads of the lambda succeed. *)
Lemma ComputeEssentialMatrix_eq (L : Locals T) p0 r1 q0 r2 root :
  ComputeEssentialMatrix L (p0 :: r1) (q0 :: r2) root =
  Some (mkMat3 (lit 0) (lit 0) (asol L root)
               (lit 0) (lit 0) (bsol L root)
               (csol L root) (dsol L root)
               (esol L root (Vec2_x p0) (Vec2_y p0) (Vec2_x q0) (Vec2_y q0))).
Proof. reflexivity. Qed.

(** The orthographic solver on inputs of at least three columns. *)
Lemma ThreePointsRelativePose_eq p0 p1 p2 r1 q0 q1 q2 r2 (E : list (Mat3 T)) :
  let L := compute_locals p0 p1 p2 q0 q1 q2 in
  let candidate := fun root =>
    mkMat3 (lit 0) (lit 0) (asol L root)
           (lit 0) (lit 0) (bsol L root)
           (csol L root) (dsol L root)
           (esol L root (Vec2_x p0) (Vec2_y p0) (Vec2_x q0) (Vec2_y q0)) in
  ThreePointsRelativePose (p0 :: p1 :: p2 :: r1) (q0 :: q1 :: q2 :: r2) E
  = Some (E ++ [candidate (d4_2 L + tmp L); candidate (d4_2 L - tmp L)]).
Proof.
  intros L candidate.
  unfold ThreePointsRelativePose, emplace_back.
  cbn [Mat2X_col nth_error bind]. fold L.
  rewrite !ComputeEssentialMatrix_eq. cbn [bind].
  now rewrite <- app_assoc.
Qed.

(** The action matrix of inputs of at least three columns: the loop
    overwrites every row of the storage it starts from. *)
Lemma build_action_matrix_eq a0 a1 a2 ra b0 b1 b2 rb (A0 : Mat34 T) :
  build_action_matrix (a0 :: a1 :: a2 :: ra) (b0 :: b1 :: b2 :: rb) A0 =
  Some (mkMat34 (action_row a0 b0) (action_row a1 b1) (action_row a2 b2)).
Proof. reflexivity. Qed.

Section UprightStructure.

Variable eigenvectors_leftCols1 : Mat4 T -> Vec4 T.

Lemma Solve_eq a0 a1 a2 ra b0 b1 b2 rb (pvec_E : list (Mat3 T)) :
  let A := mkMat34 (action_row a0 b0) (action_row a1 b1) (action_row a2 b2) in
  ThreePointUprightRelativePoseSolver_Solve eigenvectors_leftCols1
    (a0 :: a1 :: a2 :: ra) (b0 :: b1 :: b2 :: rb) pvec_E =
  Some (pvec_E ++
        [essential_of_nullspace (nullspace_of eigenvectors_leftCols1 A)]).
Proof. reflexivity. Qed.

(** The model fails only on a column access outside a sample. *)
Lemma Solve_short_sample (bearing_a bearing_b : Mat3X T) pvec_E :
  (length bearing_a < 3)%nat ->
  ThreePointUprightRelativePoseSolver_Solve eigenvectors_leftCols1
    bearing_a bearing_b pvec_E = None.
Proof.
  intros H.
  destruct bearing_a as [|a0 [|a1 [|a2 ra]]]; simpl in H; try lia;
    destruct bearing_b as [|b0 [|b1 [|b2 rb]]]; reflexivity.
Qed.

End UprightStructure.

Lemma ThreePointsRelativePose_short_sample (x1 x2 : Mat2X T) E :
  (length x1 < 3)%nat ->
  ThreePointsRelativePose x1 x2 E = None.
Proof.
  intros H.
  destruct x1 as [|p0 [|p1 [|p2 r1]]]; simpl in H; try lia; reflexivity.
Qed.

End Structure.

(* ================================================================== *)
(** * Layout, count and frame of the output *)

Section Output.

Context {T : Type} {ST : Scalar T}.
Local Open Scope scalar_scope.

(** C2. For every input of the upright solver (two samples of at least
    three bearing vectors, any prior output vector, any eigen-solver) the
    one matrix it appends has the literal zero at (0,0), (0,2), (1,1),
    (2,0) and (2,2), and (0,1) = n2, (1,0) = -n0, (1,2) = n1, (2,1) = n3
    for the vector n = (n0, n1, n2, n3) that the eigen-solver returns on
    [A^T A]. *)
Theorem upright_zero_pattern
  (eigenvectors_leftCols1 : Mat4 T -> Vec4 T)
  a0 a1 a2 ra b0 b1 b2 rb (pvec_E : list (Mat3 T)) :
  let A := mkMat34 (action_row a0 b0) (action_row a1 b1) (action_row a2 b2) in
  let n := eigenvectors_leftCols1 (Mat34_transpose_mul A) in
  exists E : Mat3 T,
    ThreePointUprightRelativePoseSolver_Solve eigenvectors_leftCols1
      (a0 :: a1 :: a2 :: ra) (b0 :: b1 :: b2 :: rb) pvec_E
    = Some (pvec_E ++ [E]) /\
    Mat3_coeff E 0 0 = lit 0 /\ Mat3_coeff E 0 2 = lit 0 /\
    Mat3_coeff E 1 1 = lit 0 /\
    Mat3_coeff E 2 0 = lit 0 /\ Mat3_coeff E 2 2 = lit 0 /\
    Mat3_coeff E 0 1 = Vec4_coeff n 2 /\
    Mat3_coeff E 1 0 = - Vec4_coeff n 0 /\
    Mat3_coeff E 1 2 = Vec4_coeff n 1 /\
    Mat3_coeff E 2 1 = Vec4_coeff n 3.
Proof.
  intros A n.
  exists (essential_of_nullspace n). split.
  - apply Solve_eq.
  - repeat split.
Qed.

(** C4. Every candidate of the orthographic solver is laid out as
    row 0 = (0, 0, asol), row 1 = (0, 0, bsol), row 2 = (csol, dsol, esol),
    and the candidate of the root [d4_2 + tmp] is appended before that of
    the root [d4_2 - tmp]. *)
Theorem orthographic_layout_and_order
  p0 p1 p2 r1 q0 q1 q2 r2 (E : list (Mat3 T)) :
  let L := compute_locals p0 p1 p2 q0 q1 q2 in
  let candidate := fun root =>
    mkMat3 (lit 0) (lit 0) (asol L root)
           (lit 0) (lit 0) (bsol L root)
           (csol L root) (dsol L root)
           (esol L root (Vec2_x p0) (Vec2_y p0) (Vec2_x q0) (Vec2_y q0)) in
  ThreePointsRelativePose (p0 :: p1 :: p2 :: r1) (q0 :: q1 :: q2 :: r2) E
  = Some (E ++ [candidate (d4_2 L + tmp L); candidate (d4_2 L - tmp L)]) /\
  (forall root,
     Mat3_coeff (candidate root) 0 0 = lit 0 /\
     Mat3_coeff (candidate root) 0 1 = lit 0 /\
     Mat3_coeff (candidate root) 1 0 = lit 0 /\
     Mat3_coeff (candidate root) 1 1 = lit 0).
Proof.
  intros L candidate.
  split; [apply ThreePointsRelativePose_eq | repeat split].
Qed.

(** C8. Whatever the caller's vector holds before the call, each solver
    returns it with the new candidates appended behind the old elements,
    which keep their places and values. *)
Theorem output_is_append_only :
  (forall p0 p1 p2 r1 q0 q1 q2 r2 (E : list (Mat3 T)),
     exists new out,
       ThreePointsRelativePose (p0 :: p1 :: p2 :: r1) (q0 :: q1 :: q2 :: r2) E
       = Some out /\
       out = E ++ new /\ firstn (length E) out = E) /\
  (forall (eigenvectors_leftCols1 : Mat4 T -> Vec4 T)
          a0 a1 a2 ra b0 b1 b2 rb (pvec_E : list (Mat3 T)),
     exists new out,
       ThreePointUprightRelativePoseSolver_Solve eigenvectors_leftCols1
         (a0 :: a1 :: a2 :: ra) (b0 :: b1 :: b2 :: rb) pvec_E
       = Some out /\
       out = pvec_E ++ new /\ firstn (length pvec_E) out = pvec_E).
Proof.
  split.
  - intros. eexists. eexists.
    split; [apply ThreePointsRelativePose_eq |]. split; [reflexivity |].
    rewrite firstn_app, Nat.sub_diag, firstn_all. simpl. apply app_nil_r.
  - intros. eexists. eexists. split; [apply Solve_eq |]. split; [reflexivity |].
    rewrite firstn_app, Nat.sub_diag, firstn_all. simpl. apply app_nil_r.
Qed.

(** C9. On every sample, degenerate or not and whatever the sign of the
    discriminant, the orthographic solver appends two candidates: the
    output is never the vector it was given. *)
Theorem orthographic_always_two
  p0 p1 p2 r1 q0 q1 q2 r2 (E : list (Mat3 T)) :
  exists out,
    ThreePointsRelativePose (p0 :: p1 :: p2 :: r1) (q0 :: q1 :: q2 :: r2) E
    = Some out /\
    length out = (length E + 2)%nat /\ out <> E.
Proof.
  eexists. split; [apply ThreePointsRelativePose_eq |].
  split.
  - rewrite length_app. reflexivity.
  - intros Heq. apply (f_equal (@length _)) in Heq.
    rewrite length_app in Heq. simpl in Heq. lia.
Qed.

(** C10. Each solver reads columns 0, 1 and 2 of its two samples and
    nothing else: two pairs of samples that agree on these columns make it
    append the same candidates. *)
Theorem candidates_depend_on_first_three_columns :
  (forall (x1 x1' x2 x2' : Mat2X T) (E E' : list (Mat3 T)),
     (3 <= length x1)%nat -> (3 <= length x2)%nat ->
     (forall i, (i < 3)%nat -> Mat2X_col x1 i = Mat2X_col x1' i) ->
     (forall i, (i < 3)%nat -> Mat2X_col x2 i = Mat2X_col x2' i) ->
     exists new,
       ThreePointsRelativePose x1 x2 E = Some (E ++ new) /\
       ThreePointsRelativePose x1' x2' E' = Some (E' ++ new)) /\
  (forall (eigenvectors_leftCols1 : Mat4 T -> Vec4 T)
          (a a' b b' : Mat3X T) (E E' : list (Mat3 T)),
     (3 <= length a)%nat -> (3 <= length b)%nat ->
     (forall i, (i < 3)%nat -> Mat3X_col a i = Mat3X_col a' i) ->
     (forall i, (i < 3)%nat -> Mat3X_col b i = Mat3X_col b' i) ->
     exists new,
       ThreePointUprightRelativePoseSolver_Solve eigenvectors_leftCols1 a b E
       = Some (E ++ new) /\
       ThreePointUprightRelativePoseSolver_Solve eigenvectors_leftCols1 a' b' E'
       = Some (E' ++ new)).
Proof.
  split.
  - intros x1 x1' x2 x2' E E' Hl1 Hl2 H1 H2.
    destruct (three_columns x1 Hl1) as (p0 & p1 & p2 & r1 & Hx1).
    destruct (three_columns x2 Hl2) as (q0 & q1 & q2 & r2 & Hx2).
    destruct (columns_agree x1' Hx1 H1) as (r1' & Hx1').
    destruct (columns_agree x2' Hx2 H2) as (r2' & Hx2').
    subst. eexists. split; apply ThreePointsRelativePose_eq.
  - intros eig a a' b b' E E' Hl1 Hl2 H1 H2.
    destruct (three_columns a Hl1) as (a0 & a1 & a2 & ra & Ha).
    destruct (three_columns b Hl2) as (b0 & b1 & b2 & rb & Hb).
    destruct (columns_agree a' Ha H1) as (ra' & Ha').
    destruct (columns_agree b' Hb H2) as (rb' & Hb').
    subst. eexists. split; apply Solve_eq.
Qed.

End Output.

(* ================================================================== *)
(** * The locals of the orthographic solver *)

(** Each local is the expression the source initialises it with. *)
Lemma compute_locals_fields {T : Type} {ST : Scalar T}
  (p0 p1 p2 q0 q1 q2 : Vec2 T) :
  let L := compute_locals p0 p1 p2 q0 q1 q2 in
  (xd1 L = Vec2_sub p1 p0 /\ yd1 L = Vec2_sub p2 p0 /\
   xd2 L = Vec2_sub q1 q0 /\ yd2 L = Vec2_sub q2 q0 /\
   denom L = Vec2_x (xd1 L) * Vec2_y (yd1 L) - Vec2_y (xd1 L) * Vec2_x (yd1 L) /\
   aac L = (Vec2_y (xd1 L) * Vec2_x (yd2 L) - Vec2_x (xd2 L) * Vec2_y (yd1 L)) / denom L /\
   aad L = (Vec2_y (xd1 L) * Vec2_y (yd2 L) - Vec2_y (xd2 L) * Vec2_y (yd1 L)) / denom L /\
   bbc L = (Vec2_x (xd2 L) * Vec2_x (yd1 L) - Vec2_x (xd1 L) * Vec2_x (yd2 L)) / denom L /\
   bbd L = (Vec2_y (xd2 L) * Vec2_x (yd1 L) - Vec2_x (xd1 L) * Vec2_y (yd2 L)) / denom L)%S.
Proof. intros L. repeat split. Qed.

Lemma compute_locals_polynomial {T : Type} {ST : Scalar T}
  (p0 p1 p2 q0 q1 q2 : Vec2 T) :
  let L := compute_locals p0 p1 p2 q0 q1 q2 in
  (aac_sq L = aac L * aac L /\
   dd_2 L = - aac_sq L + aad L * aad L - bbc L * bbc L + bbd L * bbd L /\
   dd_1c L = lit 2 * aac L * aad L + lit 2 * bbc L * bbd L /\
   dd_0 L = aac_sq L + bbc L * bbc L - lit 1 /\
   d4_4 L = dd_1c L * dd_1c L + dd_2 L * dd_2 L /\
   d4_2 L = - dd_1c L * dd_1c L + lit 2 * dd_0 L * dd_2 L /\
   d4_0 L = dd_0 L * dd_0 L /\
   tmp L = ssqrt (discriminant L) /\
   tmp_csol L = - aac_sq L + aad L * aad L - bbc L * bbc L + bbd L * bbd L)%S.
Proof. intros L. repeat split. Qed.

(* ================================================================== *)
(** * Exact arithmetic: the algebra of the two solvers *)

Section Exact.

Local Open Scope R_scope.

(** The cross product of the two edges at [p0] vanishes exactly when the
    three points lie on a line. *)
Lemma cross_zero_iff_collinear (p0 p1 p2 : Vec2 R) :
  (Vec2_x p1 - Vec2_x p0) * (Vec2_y p2 - Vec2_y p0)
  - (Vec2_y p1 - Vec2_y p0) * (Vec2_x p2 - Vec2_x p0) = 0
  <-> collinear p0 p1 p2.
Proof.
  destruct p0 as [x0 y0], p1 as [x1 y1], p2 as [x2 y2].
  unfold collinear. cbn [Vec2_x Vec2_y].
  split.
  - intros H.
    destruct (Req_dec (x1 - x0) 0) as [Hx1|Hx1];
      [destruct (Req_dec (y1 - y0) 0) as [Hy1|Hy1] |].
    + destruct (Req_dec (x2 - x0) 0) as [Hx2|Hx2];
        [destruct (Req_dec (y2 - y0) 0) as [Hy2|Hy2] |].
      * exists 1, 0, (- x0). split; [left; lra | repeat split; lra].
      * exists (y2 - y0), (- (x2 - x0)), (- ((y2 - y0) * x0 - (x2 - x0) * y0)).
        split; [left; lra | repeat split; nra].
      * exists (y2 - y0), (- (x2 - x0)), (- ((y2 - y0) * x0 - (x2 - x0) * y0)).
        split; [right; lra | repeat split; nra].
    + exists (y1 - y0), (- (x1 - x0)), (- ((y1 - y0) * x0 - (x1 - x0) * y0)).
      split; [left; lra | repeat split; nra].
    + exists (y1 - y0), (- (x1 - x0)), (- ((y1 - y0) * x0 - (x1 - x0) * y0)).
      split; [right; lra | repeat split; nra].
  - intros (a & b & c & Hab & H0 & H1 & H2).
    set (d := (x1 - x0) * (y2 - y0) - (y1 - y0) * (x2 - x0)).
    assert (Ha : a * d = 0).
    { replace (a * d) with
        ((y2 - y0) * ((a * x1 + b * y1 + c) - (a * x0 + b * y0 + c))
         - (y1 - y0) * ((a * x2 + b * y2 + c) - (a * x0 + b * y0 + c)))
        by (unfold d; ring).
      rewrite H0, H1, H2. ring. }
    assert (Hb : b * d = 0).
    { replace (b * d) with
        ((x1 - x0) * ((a * x2 + b * y2 + c) - (a * x0 + b * y0 + c))
         - (x2 - x0) * ((a * x1 + b * y1 + c) - (a * x0 + b * y0 + c)))
        by (unfold d; ring).
      rewrite H0, H1, H2. ring. }
    destruct Hab as [Hn|Hn].
    + destruct (Rmult_integral _ _ Ha); [contradiction | assumption].
    + destruct (Rmult_integral _ _ Hb); [contradiction | assumption].
Qed.

(** The residual of a pair for the matrix built from a 4-vector is minus
    the product of the pair's row of [A] with that vector. *)
Lemma upright_residual_row (n : Vec4 R) (a b : Vec3 R) :
  upright_residual (essential_of_nullspace n) a b
  = - Vec4_dot (action_row a b) n.
Proof.
  destruct n as [n0 n1 n2 n3], a as [ax ay az], b as [bx by' bz].
  unfold upright_residual, bilinear, Mat3_mul_vec, Vec3_dot, Vec4_dot,
    action_row, essential_of_nullspace.
  cbn. ring.
Qed.

(** The orthographic residual of the pair [esol] is computed from. *)
Lemma orthographic_residual_first_pair (L : Locals R) (root : R) (p0 q0 : Vec2 R) :
  orthographic_residual
    (mkMat3 0 0 (asol L root) 0 0 (bsol L root) (csol L root) (dsol L root)
       (esol L root (Vec2_x p0) (Vec2_y p0) (Vec2_x q0) (Vec2_y q0)))
    p0 q0 = 0.
Proof.
  unfold orthographic_residual, bilinear, Mat3_mul_vec, Vec3_dot,
    Vec2_homogeneous, esol.
  generalize (asol L root), (bsol L root), (csol L root), (dsol L root).
  intros a b c d. cbn. ring.
Qed.

(** C1. In exact arithmetic, for every input of the upright solver (two
    samples of at least three bearing vectors) and every eigen-solver, the
    residual [b^T * E * a] of each of the three correspondences for the
    matrix E the solver appends is minus the product of that
    correspondence's row of A with the selected vector n; when n is in the
    null space of A, the three residuals are 0. *)
Theorem upright_epipolar
  (eigenvectors_leftCols1 : Mat4 R -> Vec4 R)
  a0 a1 a2 ra b0 b1 b2 rb (pvec_E : list (Mat3 R)) :
  let A := mkMat34 (action_row a0 b0) (action_row a1 b1) (action_row a2 b2) in
  let n := eigenvectors_leftCols1 (Mat34_transpose_mul A) in
  exists E : Mat3 R,
    ThreePointUprightRelativePoseSolver_Solve eigenvectors_leftCols1
      (a0 :: a1 :: a2 :: ra) (b0 :: b1 :: b2 :: rb) pvec_E
    = Some (pvec_E ++ [E]) /\
    (upright_residual E a0 b0 = - Vec4_dot (Mat34_row A 0) n /\
     upright_residual E a1 b1 = - Vec4_dot (Mat34_row A 1) n /\
     upright_residual E a2 b2 = - Vec4_dot (Mat34_row A 2) n) /\
    (Vec4_dot (Mat34_row A 0) n = 0 ->
     Vec4_dot (Mat34_row A 1) n = 0 ->
     Vec4_dot (Mat34_row A 2) n = 0 ->
     upright_residual E a0 b0 = 0 /\
     upright_residual E a1 b1 = 0 /\
     upright_residual E a2 b2 = 0).
Proof.
  intros A n.
  exists (essential_of_nullspace n). split; [apply Solve_eq |].
  cbn [Mat34_row A A_row0 A_row1 A_row2].
  split.
  - repeat split; apply upright_residual_row.
  - intros H0 H1 H2. rewrite !upright_residual_row, H0, H1, H2.
    repeat split; ring.
Qed.

(** C3. In exact arithmetic, each candidate of the orthographic solver has
    dsol = sqrt(-root / d4_4 / 2) at (2,1), asol = aac*csol + aad*dsol at
    (0,2) and bsol = bbc*csol + bbd*dsol at (1,2), with csol its entry
    (2,0), and its entry (2,2) makes the residual
    asol*x1.x + bsol*x1.y + csol*x2.x + dsol*x2.y + esol of the first pair
    (x1.col(0), x2.col(0)) equal to 0. *)
Theorem orthographic_first_pair_exact
  p0 p1 p2 r1 q0 q1 q2 r2 (E : list (Mat3 R)) :
  let L := compute_locals p0 p1 p2 q0 q1 q2 in
  let recovered := fun (root : R) (C : Mat3 R) =>
    m21 C = sqrt (- root / d4_4 L / 2) /\
    m02 C = aac L * m20 C + aad L * m21 C /\
    m12 C = bbc L * m20 C + bbd L * m21 C /\
    orthographic_residual C p0 q0 = 0 in
  exists E1 E2 : Mat3 R,
    ThreePointsRelativePose (p0 :: p1 :: p2 :: r1) (q0 :: q1 :: q2 :: r2) E
    = Some (E ++ [E1; E2]) /\
    recovered (d4_2 L + tmp L) E1 /\
    recovered (d4_2 L - tmp L) E2.
Proof.
  intros L recovered.
  eexists. eexists. split; [apply ThreePointsRelativePose_eq |].
  split; (split; [reflexivity | split; [reflexivity | split; [reflexivity |]]]);
    apply orthographic_residual_first_pair.
Qed.

(** C6 (as amended). In any arithmetic, [denom] is the cross product
    xd1.x*yd1.y - xd1.y*yd1.x of the two edges
    xd1 = x1.col(1) - x1.col(0) and yd1 = x1.col(2) - x1.col(0) of the
    first image, evaluated in that arithmetic, and each of aac, aad, bbc,
    bbd is the quotient of its cross product by [denom].  In exact real
    arithmetic [denom] is 0 exactly when the three points of the first
    image are collinear; on doubles the equivalence does not hold, as the
    lemma after this section shows. *)
Theorem denom_is_cross_product :
  (forall (T : Type) (ST : Scalar T) (p0 p1 p2 q0 q1 q2 : Vec2 T),
     let L := compute_locals p0 p1 p2 q0 q1 q2 in
     (xd1 L = Vec2_sub p1 p0 /\ yd1 L = Vec2_sub p2 p0 /\
      xd2 L = Vec2_sub q1 q0 /\ yd2 L = Vec2_sub q2 q0 /\
      denom L = Vec2_x (xd1 L) * Vec2_y (yd1 L)
                - Vec2_y (xd1 L) * Vec2_x (yd1 L) /\
      aac L = (Vec2_y (xd1 L) * Vec2_x (yd2 L)
               - Vec2_x (xd2 L) * Vec2_y (yd1 L)) / denom L /\
      aad L = (Vec2_y (xd1 L) * Vec2_y (yd2 L)
               - Vec2_y (xd2 L) * Vec2_y (yd1 L)) / denom L /\
      bbc L = (Vec2_x (xd2 L) * Vec2_x (yd1 L)
               - Vec2_x (xd1 L) * Vec2_x (yd2 L)) / denom L /\
      bbd L = (Vec2_y (xd2 L) * Vec2_x (yd1 L)
               - Vec2_x (xd1 L) * Vec2_y (yd2 L)) / denom L)%S) /\
  (forall p0 p1 p2 q0 q1 q2 : Vec2 R,
     denom (compute_locals p0 p1 p2 q0 q1 q2) = 0 <-> collinear p0 p1 p2).
Proof.
  split.
  - intros T ST p0 p1 p2 q0 q1 q2 L.
    exact (compute_locals_fields p0 p1 p2 q0 q1 q2).
  - intros p0 p1 p2 q0 q1 q2.
    rewrite <- cross_zero_iff_collinear. reflexivity.
Qed.

End Exact.

(* ================================================================== *)
(** * Doubles: a zero [denom] is not collinearity *)

Lemma tiny_positive : (0 < double_to_R tiny)%R.
Proof.
  unfold double_to_R, tiny. cbv zeta.
  apply Rdiv_lt_0_compat; apply IZR_lt; reflexivity.
Qed.

(** On doubles [denom] is a zero for the points (0,0), (2^-600,0),
    (0,2^-600), which are not collinear (the two products underflow), and
    it is 8 for the points (1,3), (1e16,3e16), (3,9) of the line y = 3x
    (the differences are rounded).  All coordinates are binary64
    numbers. *)
Lemma denom_zero_is_not_collinearity_on_doubles :
  (forallb (valid_binary prec emax)
     (coordinates (pt 0 0) (mkVec2 tiny (lit 0)) (mkVec2 (lit 0) tiny)) = true /\
   is_zero (denom (compute_locals
                     (pt 0 0) (mkVec2 tiny (lit 0)) (mkVec2 (lit 0) tiny)
                     (pt 0 0) (pt 1 1) (pt 3 2))) = true /\
   ~ collinear (Vec2_to_R (pt 0 0)) (Vec2_to_R (mkVec2 tiny (lit 0)))
       (Vec2_to_R (mkVec2 (lit 0) tiny))) /\
  (forallb (valid_binary prec emax)
     (coordinates (pt 1 3) (pt 10000000000000000 30000000000000000) (pt 3 9))
   = true /\
   denom (compute_locals
            (pt 1 3) (pt 10000000000000000 30000000000000000) (pt 3 9)
            (pt 0 0) (pt 1 1) (pt 3 2)) = lit 8 /\
   collinear (Vec2_to_R (pt 1 3))
     (Vec2_to_R (pt 10000000000000000 30000000000000000))
     (Vec2_to_R (pt 3 9))).
Proof.
  split; (split; [vm_compute; reflexivity | split; [vm_compute; reflexivity |]]).
  - intros Hc. apply cross_zero_iff_collinear in Hc.
    unfold Vec2_to_R, pt in Hc. cbn [Vec2_x Vec2_y] in Hc.
    change (double_to_R (lit 0)) with 0%R in Hc.
    pose proof tiny_positive as Ht. nra.
  - exists 3%R, (-1)%R, 0%R. unfold Vec2_to_R, pt. cbn [Vec2_x Vec2_y].
    change (lit 1 : double) with (S754_finite false 4503599627370496 (-52)).
    change (lit 3 : double) with (S754_finite false 6755399441055744 (-51)).
    change (lit 9 : double) with (S754_finite false 5066549580791808 (-49)).
    change (lit 10000000000000000 : double)
      with (S754_finite false 5000000000000000 1).
    change (lit 30000000000000000 : double)
      with (S754_finite false 7500000000000000 2).
    unfold double_to_R. cbv zeta.
    change (Z.pow_pos 2 52) with 4503599627370496%Z.
    change (Z.pow_pos 2 51) with 2251799813685248%Z.
    change (Z.pow_pos 2 49) with 562949953421312%Z.
    change (5000000000000000 * 2 ^ 1)%Z with 10000000000000000%Z.
    change (7500000000000000 * 2 ^ 2)%Z with 30000000000000000%Z.
    split; [left; lra |]. repeat split; lra.
Qed.


(* ================================================================== *)
(** * IEEE-754 binary64: how NaN travels through the solver *)

Section Binary64.

Local Open Scope scalar_scope.

Implicit Types x y : double.

Lemma add_nan_l x : S754_nan + x = S754_nan.
Proof. now destruct x. Qed.
Lemma add_nan_r x : x + S754_nan = S754_nan.
Proof. now destruct x. Qed.
Lemma sub_nan_l x : S754_nan - x = S754_nan.
Proof. now destruct x. Qed.
Lemma sub_nan_r x : x - S754_nan = S754_nan.
Proof. now destruct x. Qed.
Lemma mul_nan_l x : S754_nan * x = S754_nan.
Proof. now destruct x. Qed.
Lemma mul_nan_r x : x * S754_nan = S754_nan.
Proof. now destruct x. Qed.
Lemma div_nan_l x : S754_nan / x = S754_nan.
Proof. now destruct x. Qed.
Lemma div_nan_r x : x / S754_nan = S754_nan.
Proof. now destruct x. Qed.
Lemma opp_nan : - S754_nan = S754_nan :> double.
Proof. reflexivity. Qed.
Lemma sqrt_nan : ssqrt S754_nan = S754_nan :> double.
Proof. reflexivity. Qed.

Create Rewrite HintDb nan.
Hint Rewrite add_nan_l add_nan_r sub_nan_l sub_nan_r mul_nan_l mul_nan_r
  div_nan_l div_nan_r opp_nan sqrt_nan : nan.

(** The square root of a negative double is NaN. *)
Lemma sqrt_negative x : is_negative x = true -> ssqrt x = S754_nan.
Proof. destruct x as [s|[|]| |[|] m e]; try discriminate; reflexivity. Qed.

(** A quotient by a zero is an infinity or NaN. *)
Lemma div_zero x y :
  is_zero y = true -> x / y = S754_nan \/ exists s, x / y = S754_infinity s.
Proof.
  destruct y; try discriminate. intros _.
  destruct x; cbn; eauto.
Qed.

(** The square of an infinity or NaN is the positive infinity or NaN. *)
Lemma square_of_quotient_by_zero x y :
  is_zero y = true ->
  (x / y) * (x / y) = S754_nan \/ (x / y) * (x / y) = S754_infinity false.
Proof.
  intros H. destruct (div_zero x y H) as [-> | [s ->]].
  - now left.
  - right. now destruct s.
Qed.

(** With NaN for root, the five parameters of a candidate are NaN. *)
Lemma parameters_of_nan_root (L : Locals double) (x1_00 x1_10 x2_00 x2_10 : double) :
  dsol L S754_nan = S754_nan /\
  csol L S754_nan = S754_nan /\
  asol L S754_nan = S754_nan /\
  bsol L S754_nan = S754_nan /\
  esol L S754_nan x1_00 x1_10 x2_00 x2_10 = S754_nan.
Proof.
  assert (Hd : dsol L S754_nan = S754_nan)
    by (unfold dsol; now autorewrite with nan).
  assert (Hc : csol L S754_nan = S754_nan)
    by (unfold csol; rewrite Hd; now autorewrite with nan).
  assert (Ha : asol L S754_nan = S754_nan)
    by (unfold asol; rewrite Hc; now autorewrite with nan).
  assert (Hb : bsol L S754_nan = S754_nan)
    by (unfold bsol; rewrite Hc; now autorewrite with nan).
  repeat split; trivial.
  unfold esol. rewrite Ha. now autorewrite with nan.
Qed.

(** Once [tmp] is NaN both roots are, and with them every entry of both
    candidates that the layout leaves free. *)
Lemma candidates_of_nan_tmp (L : Locals double) (x1_00 x1_10 x2_00 x2_10 : double) :
  tmp L = S754_nan ->
  let candidate := fun root =>
    mkMat3 (lit 0) (lit 0) (asol L root)
           (lit 0) (lit 0) (bsol L root)
           (csol L root) (dsol L root)
           (esol L root x1_00 x1_10 x2_00 x2_10) in
  forallb is_nan (free_entries (candidate (d4_2 L + tmp L)) ++
                  free_entries (candidate (d4_2 L - tmp L))) = true.
Proof.
  intros Ht candidate. unfold candidate, free_entries.
  cbn [m02 m12 m20 m21 m22 app].
  rewrite Ht, add_nan_r, sub_nan_r.
  destruct (parameters_of_nan_root L x1_00 x1_10 x2_00 x2_10)
    as (-> & -> & -> & -> & ->).
  reflexivity.
Qed.

Lemma tmp_of_negative_discriminant (p0 p1 p2 q0 q1 q2 : Vec2 double) :
  let L := compute_locals p0 p1 p2 q0 q1 q2 in
  is_negative (discriminant L) = true -> tmp L = S754_nan.
Proof.
  intros L H.
  destruct (compute_locals_polynomial p0 p1 p2 q0 q1 q2)
    as (_ & _ & _ & _ & _ & _ & _ & Ht & _).
  fold L in Ht. rewrite Ht. now apply sqrt_negative.
Qed.

(** With a zero [denom] the four quotients are infinities or NaN, the sum
    [- aac_sq + aad * aad] is NaN, and NaN reaches [tmp]. *)
Lemma tmp_of_zero_denom (p0 p1 p2 q0 q1 q2 : Vec2 double) :
  let L := compute_locals p0 p1 p2 q0 q1 q2 in
  is_zero (denom L) = true -> tmp L = S754_nan.
Proof.
  intros L H.
  destruct (compute_locals_fields p0 p1 p2 q0 q1 q2)
    as (_ & _ & _ & _ & _ & Ha & Hb & _ & _).
  destruct (compute_locals_polynomial p0 p1 p2 q0 q1 q2)
    as (Hsq & H2 & _ & _ & H44 & H42 & _ & Ht & _).
  fold L in Ha, Hb, Hsq, H2, H44, H42, Ht.
  assert (Hsum : - aac_sq L + aad L * aad L = S754_nan).
  { rewrite Hsq, Ha, Hb.
    match goal with
    | |- - (?u / _ * _) + ?v / _ * _ = _ =>
        destruct (square_of_quotient_by_zero u (denom L) H) as [-> | ->];
        destruct (square_of_quotient_by_zero v (denom L) H) as [-> | ->]
    end; reflexivity. }
  assert (Hdd : dd_2 L = S754_nan)
    by (rewrite H2, Hsum; now autorewrite with nan).
  assert (Hd4 : d4_4 L = S754_nan)
    by (rewrite H44, Hdd; now autorewrite with nan).
  assert (Hd2 : d4_2 L = S754_nan)
    by (rewrite H42, Hdd; now autorewrite with nan).
  rewrite Ht. unfold discriminant. rewrite Hd4, Hd2.
  now autorewrite with nan.
Qed.

End Binary64.

(* ================================================================== *)
(** * Counts and failure modes on doubles *)

(** C5. On doubles, for every sample whose [denom] is not a zero and
    whose discriminant is not negative, the orthographic solver appends
    exactly two entries to the caller's vector; for every sample, prior
    vector and eigen-solver, in any arithmetic, the upright solver appends
    exactly one. *)
Theorem candidate_count :
  (forall p0 p1 p2 r1 q0 q1 q2 r2 (E : list (Mat3 double)),
     let L := compute_locals p0 p1 p2 q0 q1 q2 in
     is_zero (denom L) = false ->
     is_negative (discriminant L) = false ->
     exists out,
       ThreePointsRelativePose (p0 :: p1 :: p2 :: r1) (q0 :: q1 :: q2 :: r2) E
       = Some out /\
       length out = (length E + 2)%nat /\ firstn (length E) out = E) /\
  (forall (T : Type) (ST : Scalar T)
          (eigenvectors_leftCols1 : Mat4 T -> Vec4 T)
          a0 a1 a2 ra b0 b1 b2 rb (pvec_E : list (Mat3 T)),
     exists out,
       ThreePointUprightRelativePoseSolver_Solve eigenvectors_leftCols1
         (a0 :: a1 :: a2 :: ra) (b0 :: b1 :: b2 :: rb) pvec_E
       = Some out /\
       length out = (length pvec_E + 1)%nat /\
       firstn (length pvec_E) out = pvec_E).
Proof.
  split.
  - intros p0 p1 p2 r1 q0 q1 q2 r2 E L _ _.
    eexists. split; [apply ThreePointsRelativePose_eq |].
    split.
    + rewrite length_app. reflexivity.
    + rewrite firstn_app, Nat.sub_diag, firstn_all. simpl. apply app_nil_r.
  - intros. eexists. split; [apply Solve_eq |].
    split.
    + rewrite length_app. reflexivity.
    + rewrite firstn_app, Nat.sub_diag, firstn_all. simpl. apply app_nil_r.
Qed.

(** C7. On doubles, neither solver validates its sample or reports an
    error: on every sample of at least three columns, whatever the values,
    the orthographic solver returns the vector with two candidates
    appended and the upright solver returns it with one.  When the
    discriminant is negative, the entries asol, bsol, csol, dsol and esol
    of both candidates are NaN; when [denom] is a zero (collinear points
    in the first image) they are NaN as well. *)
Theorem no_validation_nan_propagates :
  (forall p0 p1 p2 r1 q0 q1 q2 r2 (E : list (Mat3 double)),
     let L := compute_locals p0 p1 p2 q0 q1 q2 in
     exists E1 E2 : Mat3 double,
       ThreePointsRelativePose (p0 :: p1 :: p2 :: r1) (q0 :: q1 :: q2 :: r2) E
       = Some (E ++ [E1; E2]) /\
       (is_negative (discriminant L) = true ->
        forallb is_nan (free_entries E1 ++ free_entries E2) = true) /\
       (is_zero (denom L) = true ->
        forallb is_nan (free_entries E1 ++ free_entries E2) = true)) /\
  (forall (eigenvectors_leftCols1 : Mat4 double -> Vec4 double)
          a0 a1 a2 ra b0 b1 b2 rb (pvec_E : list (Mat3 double)),
     exists E : Mat3 double,
       ThreePointUprightRelativePoseSolver_Solve eigenvectors_leftCols1
         (a0 :: a1 :: a2 :: ra) (b0 :: b1 :: b2 :: rb) pvec_E
       = Some (pvec_E ++ [E])).
Proof.
  split.
  - intros p0 p1 p2 r1 q0 q1 q2 r2 E L.
    eexists. eexists. split; [apply ThreePointsRelativePose_eq |].
    split; intros H.
    + apply candidates_of_nan_tmp.
      now apply tmp_of_negative_discriminant.
    + apply candidates_of_nan_tmp.
      now apply tmp_of_zero_denom.
  - intros. eexists. apply Solve_eq.
Qed.

(* ================================================================== *)
(** * The theorems at the sample inputs *)

Lemma upright_epipolar_witness :
  exists E : Mat3 R,
    ThreePointUprightRelativePoseSolver_Solve translated_nullspace
      translated_a translated_b [] = Some [E] /\
    (upright_residual E (mkVec3 1 1 2) (mkVec3 0 1 2) = 0 /\
     upright_residual E (mkVec3 3 2 1) (mkVec3 2 2 1) = 0 /\
     upright_residual E (mkVec3 0 1 1) (mkVec3 (-1) 1 1) = 0)%R.
Proof.
  destruct (upright_epipolar translated_nullspace
              (mkVec3 1 1 2) (mkVec3 3 2 1) (mkVec3 0 1 1) []
              (mkVec3 0 1 2) (mkVec3 2 2 1) (mkVec3 (-1) 1 1) [] [])%R
    as (E & HE & _ & Hnull).
  exists E. split; [exact HE |].
  apply Hnull; cbn; lra.
Defined.

Lemma candidate_count_witness :
  exists out,
    ThreePointsRelativePose triangle_x1 regular_x2 [] = Some out /\
    length out = 2%nat /\ firstn 0 out = [].
Proof.
  destruct candidate_count as [Hortho _].
  apply (Hortho (pt 0 0) (pt 1 0) (pt 0 1) [] (pt 0 0) (pt 1 1) (pt 3 2) [] []);
    vm_compute; reflexivity.
Defined.

Lemma no_validation_nan_propagates_witness :
  (exists E1 E2 : Mat3 double,
     ThreePointsRelativePose triangle_x1 stretched_x2 [] = Some [E1; E2] /\
     forallb is_nan (free_entries E1 ++ free_entries E2) = true) /\
  (exists E1 E2 : Mat3 double,
     ThreePointsRelativePose collinear_x1 regular_x2 [] = Some [E1; E2] /\
     forallb is_nan (free_entries E1 ++ free_entries E2) = true).
Proof.
  destruct no_validation_nan_propagates as [Hortho _].
  split.
  - destruct (Hortho (pt 0 0) (pt 1 0) (pt 0 1) []
                     (pt 0 0) (pt 3 (-1)) (pt 1 2) [] [])
      as (E1 & E2 & HE & Hneg & _).
    exists E1, E2. split; [exact HE |].
    apply Hneg. vm_compute. reflexivity.
  - destruct (Hortho (pt 0 0) (pt 1 0) (pt 2 0) []
                     (pt 0 0) (pt 1 1) (pt 3 2) [] [])
      as (E1 & E2 & HE & _ & Hzero).
    exists E1, E2. split; [exact HE |].
    apply Hzero. vm_compute. reflexivity.
Defined.

Lemma candidates_depend_on_first_three_columns_witness :
  (exists new,
     ThreePointsRelativePose triangle_x1 regular_x2 [] = Some ([] ++ new) /\
     ThreePointsRelativePose (triangle_x1 ++ [pt 7 7])
       (regular_x2 ++ [pt 5 5; pt 6 6]) [Mat3_Zero]
     = Some ([Mat3_Zero] ++ new)) /\
  (exists new,
     ThreePointUprightRelativePoseSolver_Solve first_row upright_a upright_b []
     = Some ([] ++ new) /\
     ThreePointUprightRelativePoseSolver_Solve first_row
       (upright_a ++ [bearing 9 9 9]) (upright_b ++ [bearing 8 8 8]) [Mat3_Zero]
     = Some ([Mat3_Zero] ++ new)).
Proof.
  destruct (@candidates_depend_on_first_three_columns double double_Scalar)
    as [Hortho Hupright].
  split.
  - apply Hortho.
    + simpl. lia.
    + simpl. lia.
    + intros [|[|[|i]]] Hi; [reflexivity | reflexivity | reflexivity | lia].
    + intros [|[|[|i]]] Hi; [reflexivity | reflexivity | reflexivity | lia].
  - apply Hupright.
    + simpl. lia.
    + simpl. lia.
    + intros [|[|[|i]]] Hi; [reflexivity | reflexivity | reflexivity | lia].
    + intros [|[|[|i]]] Hi; [reflexivity | reflexivity | reflexivity | lia].
Defined.

(* ================================================================== *)
(** * The code at the sample inputs *)

(** The literals of the source are the binary64 values of the kernel's
    floating-point numbers. *)
Module Literals.
Import PrimFloat FloatOps.

Example literals_are_binary64 :
  (lit 0, lit 1, lit 2, lit 4)
  = (Prim2SF 0%float, Prim2SF 1%float, Prim2SF 2%float, Prim2SF 4%float).
Proof. vm_compute. reflexivity. Qed.

End Literals.

Example ThreePointsRelativePose_regular :
  ThreePointsRelativePose triangle_x1 regular_x2 [] =
  Some [ mkMat3 (S754_zero false) (S754_zero false)
                (S754_finite false 8317416680959408 (-56))
                (S754_zero false) (S754_zero false)
                (S754_finite false 8946994465924472 (-53))
                (S754_finite true 6867640295684620 (-53))
                (S754_finite false 5827963210564694 (-53))
                (S754_zero false);
         mkMat3 (S754_zero false) (S754_zero false)
                (S754_finite true 5249101026591244 (-53))
                (S754_zero false) (S754_zero false)
                (S754_finite true 7319602231490824 (-53))
                (S754_finite true 6357199643383325 (-54))
                (S754_finite false 8427700848282906 (-53))
                (S754_zero false) ].
Proof. vm_compute. reflexivity. Qed.

Example ThreePointsRelativePose_stretched :
  ThreePointsRelativePose triangle_x1 stretched_x2 [] =
  let nans := mkMat3 (S754_zero false) (S754_zero false) S754_nan
                     (S754_zero false) (S754_zero false) S754_nan
                     S754_nan S754_nan S754_nan in
  Some [nans; nans].
Proof. vm_compute. reflexivity. Qed.

Example ThreePointsRelativePose_collinear :
  ThreePointsRelativePose collinear_x1 regular_x2 [] =
  let nans := mkMat3 (S754_zero false) (S754_zero false) S754_nan
                     (S754_zero false) (S754_zero false) S754_nan
                     S754_nan S754_nan S754_nan in
  Some [nans; nans].
Proof. vm_compute. reflexivity. Qed.

Example ThreePointsRelativePose_two_columns :
  ThreePointsRelativePose [pt 0 0; pt 1 0] regular_x2 [] = None.
Proof. reflexivity. Qed.

Example Solve_sample :
  ThreePointUprightRelativePoseSolver_Solve first_row upright_a upright_b [] =
  Some [ mkMat3 (lit 0) (lit (-24)) (lit 0)
                (lit (-37)) (lit 0) (lit (-14))
                (lit 0) (lit (-14)) (lit 0) ].
Proof. vm_compute. reflexivity. Qed.

(* ================================================================== *)
(** * Which locals the candidates depend on *)

Unset Implicit Arguments.

Section Extensionality.

Context {T : Type} {ST : Scalar T}.
Local Open Scope scalar_scope.

(** The lambda reads nine of the locals; two environments that agree on
    them give the same parameters. *)
Lemma parameters_ext (L L' : Locals T) :
  aac L = aac L' -> aad L = aad L' -> bbc L = bbc L' -> bbd L = bbd L' ->
  aac_sq L = aac_sq L' -> d4_4 L = d4_4 L' -> tmp_csol L = tmp_csol L' ->
  forall root,
    dsol L root = dsol L' root /\ csol L root = csol L' root /\
    asol L root = asol L' root /\ bsol L root = bsol L' root /\
    forall x1_00 x1_10 x2_00 x2_10,
      esol L root x1_00 x1_10 x2_00 x2_10 = esol L' root x1_00 x1_10 x2_00 x2_10.
Proof.
  intros Ha Hb Hc He Hsq H4 Htc root.
  assert (Hd : dsol L root = dsol L' root) by (unfold dsol; now rewrite H4).
  assert (Hcs : csol L root = csol L' root)
    by (unfold csol; now rewrite Hd, Ha, Hb, Hc, He, Hsq, Htc).
  assert (Has : asol L root = asol L' root)
    by (unfold asol; now rewrite Hd, Hcs, Ha, Hb).
  assert (Hbs : bsol L root = bsol L' root)
    by (unfold bsol; now rewrite Hd, Hcs, Hc, He).
  repeat split; trivial.
  intros. unfold esol. now rewrite Hd, Hcs, Has, Hbs.
Qed.

(** Every local after the four quotients is computed from them alone. *)
Lemma polynomial_ext (p0 p1 p2 q0 q1 q2 p0' p1' p2' q0' q1' q2' : Vec2 T) :
  let L := compute_locals p0 p1 p2 q0 q1 q2 in
  let L' := compute_locals p0' p1' p2' q0' q1' q2' in
  aac L = aac L' -> aad L = aad L' -> bbc L = bbc L' -> bbd L = bbd L' ->
  aac_sq L = aac_sq L' /\ d4_4 L = d4_4 L' /\ d4_2 L = d4_2 L' /\
  tmp L = tmp L' /\ tmp_csol L = tmp_csol L'.
Proof.
  intros L L' Ha Hb Hc He.
  destruct (compute_locals_polynomial p0 p1 p2 q0 q1 q2)
    as (Hsq & H2 & H1c & H0 & H4 & H42 & H40 & Ht & Htc).
  destruct (compute_locals_polynomial p0' p1' p2' q0' q1' q2')
    as (Hsq' & H2' & H1c' & H0' & H4' & H42' & H40' & Ht' & Htc').
  fold L in Hsq, H2, H1c, H0, H4, H42, H40, Ht, Htc.
  fold L' in Hsq', H2', H1c', H0', H4', H42', H40', Ht', Htc'.
  assert (Esq : aac_sq L = aac_sq L') by (now rewrite Hsq, Hsq', Ha).
  assert (E2 : dd_2 L = dd_2 L') by (now rewrite H2, H2', Esq, Hb, Hc, He).
  assert (E1c : dd_1c L = dd_1c L') by (now rewrite H1c, H1c', Ha, Hb, Hc, He).
  assert (E0 : dd_0 L = dd_0 L') by (now rewrite H0, H0', Esq, Hc).
  assert (E4 : d4_4 L = d4_4 L') by (now rewrite H4, H4', E1c, E2).
  assert (E42 : d4_2 L = d4_2 L') by (now rewrite H42, H42', E1c, E0, E2).
  assert (E40 : d4_0 L = d4_0 L') by (now rewrite H40, H40', E0).
  assert (Et : tmp L = tmp L')
    by (rewrite Ht, Ht'; unfold discriminant; now rewrite E4, E42, E40).
  assert (Etc : tmp_csol L = tmp_csol L')
    by (now rewrite Htc, Htc', Esq, Hb, Hc, He).
  repeat split; assumption.
Qed.
End Extensionality.

(* ================================================================== *)
(** * Exact arithmetic: what the candidates satisfy *)

Section ExactAlgebra.

Local Open Scope R_scope.

Ltac scalar_R := cbn [lit sadd ssub smul sdiv sopp ssqrt R_Scalar] in *.

(** With the four quotients of the solver, the residual of an edge
    vanishes for whatever [csol] and [dsol]. *)
Lemma edge_relations (p0 p1 p2 q0 q1 q2 : Vec2 R) :
  let L := compute_locals p0 p1 p2 q0 q1 q2 in
  denom L <> 0 ->
  forall c d : R,
    (aac L * c + aad L * d) * Vec2_x (xd1 L) + (bbc L * c + bbd L * d) * Vec2_y (xd1 L)
      + c * Vec2_x (xd2 L) + d * Vec2_y (xd2 L) = 0 /\
    (aac L * c + aad L * d) * Vec2_x (yd1 L) + (bbc L * c + bbd L * d) * Vec2_y (yd1 L)
      + c * Vec2_x (yd2 L) + d * Vec2_y (yd2 L) = 0.
Proof.
  intros L Hd c d.
  destruct (compute_locals_fields p0 p1 p2 q0 q1 q2)
    as (_ & _ & _ & _ & Hden & Ha & Hb & Hc & He).
  fold L in Hden, Ha, Hb, Hc, He. scalar_R.
  rewrite Ha, Hb, Hc, He.
  rewrite Hden in Hd. rewrite Hden.
  split; field; exact Hd.
Qed.

Lemma residual_of_candidate (a b c d e : R) (p q : Vec2 R) :
  orthographic_residual (mkMat3 0 0 a 0 0 b c d e) p q
  = a * Vec2_x p + b * Vec2_y p + c * Vec2_x q + d * Vec2_y q + e.
Proof.
  unfold orthographic_residual, bilinear, Mat3_mul_vec, Vec3_dot, Vec2_homogeneous.
  cbn. ring.
Qed.

(** X1. In exact arithmetic, when the three points of the first image are
    not collinear ([denom] is not 0), each of the two candidates of the
    orthographic solver satisfies the relation
    asol*x1.x + bsol*x1.y + csol*x2.x + dsol*x2.y + esol = 0 for all three
    correspondences, whatever the values of csol and dsol. *)
Theorem orthographic_all_pairs_exact
  p0 p1 p2 r1 q0 q1 q2 r2 (E : list (Mat3 R)) :
  denom (compute_locals p0 p1 p2 q0 q1 q2) <> 0 ->
  exists E1 E2 : Mat3 R,
    ThreePointsRelativePose (p0 :: p1 :: p2 :: r1) (q0 :: q1 :: q2 :: r2) E
    = Some (E ++ [E1; E2]) /\
    Forall (fun C => orthographic_residual C p0 q0 = 0 /\
                     orthographic_residual C p1 q1 = 0 /\
                     orthographic_residual C p2 q2 = 0) [E1; E2].
Proof.
  intros Hd.
  eexists. eexists. split; [apply ThreePointsRelativePose_eq |].
  set (L := compute_locals p0 p1 p2 q0 q1 q2) in *.
  assert (Hx : xd1 L = Vec2_sub p1 p0 /\ yd1 L = Vec2_sub p2 p0 /\
               xd2 L = Vec2_sub q1 q0 /\ yd2 L = Vec2_sub q2 q0)
    by (repeat split).
  destruct Hx as (Hx1 & Hy1 & Hx2 & Hy2).
  assert (Hall : forall root,
    let C := mkMat3 0 0 (asol L root) 0 0 (bsol L root) (csol L root) (dsol L root)
               (esol L root (Vec2_x p0) (Vec2_y p0) (Vec2_x q0) (Vec2_y q0)) in
    orthographic_residual C p0 q0 = 0 /\
    orthographic_residual C p1 q1 = 0 /\
    orthographic_residual C p2 q2 = 0).
  { intros root C. unfold C. rewrite !residual_of_candidate.
    destruct (edge_relations p0 p1 p2 q0 q1 q2 Hd (csol L root) (dsol L root))
      as (H1 & H2).
    fold L in H1, H2. rewrite Hx1, Hx2 in H1. rewrite Hy1, Hy2 in H2.
    unfold esol, asol, bsol. scalar_R.
    unfold Vec2_sub in H1, H2. cbn [Vec2_x Vec2_y] in H1, H2. scalar_R.
    repeat split; lra. }
  repeat constructor; apply Hall.
Qed.

(** The square of [dsol] at either root solves the quadratic the solver
    reduces its quartic to. *)
Lemma dsol_square_is_root (p0 p1 p2 q0 q1 q2 : Vec2 R) (root : R) :
  let L := compute_locals p0 p1 p2 q0 q1 q2 in
  let s := dsol L root * dsol L root in
  root = d4_2 L + tmp L \/ root = d4_2 L - tmp L ->
  0 <= discriminant L ->
  d4_4 L <> 0 ->
  0 <= dsol_radicand L root ->
  d4_4 L * (s * s) + d4_2 L * s + d4_0 L = 0.
Proof.
  intros L s Hroot Hdisc H44 Hrad.
  assert (Ht : tmp L * tmp L = discriminant L).
  { destruct (compute_locals_polynomial p0 p1 p2 q0 q1 q2)
      as (_ & _ & _ & _ & _ & _ & _ & Ht & _).
    fold L in Ht. rewrite Ht. scalar_R. now apply sqrt_sqrt. }
  assert (Hs : s = - root / d4_4 L / 2).
  { unfold s, dsol. scalar_R. apply sqrt_sqrt. exact Hrad. }
  rewrite Hs. unfold discriminant in Ht. scalar_R.
  set (A := d4_4 L) in *. set (B := d4_2 L) in *.
  set (C := d4_0 L) in *. set (t := tmp L) in *.
  assert (HA : A <> 0) by exact H44.
  assert (Hr : root = B + t \/ root = B - t) by exact Hroot.
  assert (Hq : 4 * A * (A * (- root / A / 2 * (- root / A / 2)) + B * (- root / A / 2) + C)
               = (root - B) * (root - B) - (B * B - 4 * A * C)) by (field; exact HA).
  assert (Hz : (root - B) * (root - B) - (B * B - 4 * A * C) = 0).
  { destruct Hr as [-> | ->]; rewrite <- Ht; ring. }
  rewrite Hz in Hq.
  apply Rmult_integral in Hq. destruct Hq as [Hq | Hq]; [lra | exact Hq].
Qed.

Lemma candidate_normalised (p0 p1 p2 q0 q1 q2 : Vec2 R) (root : R) :
  let L := compute_locals p0 p1 p2 q0 q1 q2 in
  root = d4_2 L + tmp L \/ root = d4_2 L - tmp L ->
  0 <= discriminant L ->
  d4_4 L <> 0 ->
  0 <= dsol_radicand L root ->
  csol_divisor L root <> 0 ->
  csol L root * csol L root + dsol L root * dsol L root = 1 /\
  asol L root * asol L root + bsol L root * bsol L root = 1.
Proof.
  intros L Hroot Hdisc H44 Hrad Hdiv.
  pose proof (dsol_square_is_root p0 p1 p2 q0 q1 q2 root Hroot Hdisc H44 Hrad) as Hq.
  fold L in Hq. cbv zeta in Hq.
  destruct (compute_locals_polynomial p0 p1 p2 q0 q1 q2)
    as (Hsq & H2 & H1c & H0 & H4 & H42 & H40 & _ & Htc).
  fold L in Hsq, H2, H1c, H0, H4, H42, H40, Htc.
  rewrite H4, H42, H40, H2, H1c, H0, Hsq in Hq.
  assert (Hc : csol L root * csol_divisor L root
               = - (tmp_csol L * dsol L root * dsol L root + aac_sq L
                    + bbc L * bbc L - 1)).
  { unfold csol. fold (csol_divisor L root). scalar_R. field. exact Hdiv. }
  unfold asol, bsol. unfold csol_divisor in Hc, Hdiv.
  rewrite Htc, Hsq in Hc. scalar_R.
  set (c := csol L root) in *. set (d := dsol L root) in *.
  set (a1 := aac L) in *. set (a2 := aad L) in *.
  set (b1 := bbc L) in *. set (b2 := bbd L) in *.
  assert (Hcd : c * c + d * d = 1).
  { set (D := 2 * a1 * a2 * d + 2 * b1 * b2 * d) in *.
    assert (HD : D * D * (c * c + d * d - 1) = 0).
    { replace (D * D * (c * c + d * d - 1))
        with ((c * D) * (c * D) + D * D * (d * d) - D * D) by ring.
      rewrite Hc. unfold D. rewrite <- Hq. ring. }
    apply Rmult_integral in HD. destruct HD as [HD | HD]; [| lra].
    apply Rmult_integral in HD. destruct HD; contradiction. }
  split; [exact Hcd |].
  replace ((a1 * c + a2 * d) * (a1 * c + a2 * d) + (b1 * c + b2 * d) * (b1 * c + b2 * d))
    with ((a1 * a1 + b1 * b1) * (c * c + d * d)
          + c * (2 * a1 * a2 * d + 2 * b1 * b2 * d)
          + (- (a1 * a1) + a2 * a2 - b1 * b1 + b2 * b2) * (d * d)) by ring.
  rewrite Hc, Hcd. ring.
Qed.

Lemma sheared_triangle_locals :
  let L := compute_locals (mkVec2 0 0) (mkVec2 1 0) (mkVec2 0 1)
                          (mkVec2 0 0) (mkVec2 1 0) (mkVec2 1 1) in
  aac L = -1 /\ aad L = 0 /\ bbc L = -1 /\ bbd L = -1 /\
  aac_sq L = 1 /\ tmp_csol L = -1 /\
  d4_4 L = 5 /\ d4_2 L = -6 /\ d4_0 L = 1 /\
  discriminant L = 16 /\ tmp L = 4.
Proof.
  intros L.
  destruct (compute_locals_fields (mkVec2 0 0) (mkVec2 1 0) (mkVec2 0 1)
              (mkVec2 0 0) (mkVec2 1 0) (mkVec2 1 1))
    as (Hx1 & Hy1 & Hx2 & Hy2 & Hden & Ha & Hb & Hc & He).
  destruct (compute_locals_polynomial (mkVec2 0 0) (mkVec2 1 0) (mkVec2 0 1)
              (mkVec2 0 0) (mkVec2 1 0) (mkVec2 1 1))
    as (Hsq & H2 & H1c & H0 & H4 & H42 & H40 & Ht & Htc).
  fold L in Hx1, Hy1, Hx2, Hy2, Hden, Ha, Hb, Hc, He, Hsq, H2, H1c, H0, H4, H42, H40, Ht, Htc.
  rewrite Hx1, Hy1 in Hden. rewrite Hx1, Hy1, Hx2, Hy2 in Ha, Hb, Hc, He.
  unfold Vec2_sub in *. cbn [Vec2_x Vec2_y] in *. scalar_R.
  assert (Hden' : denom L = 1) by (rewrite Hden; lra).
  rewrite Hden' in Ha, Hb, Hc, He.
  assert (Ha' : aac L = -1) by (rewrite Ha; lra).
  assert (Hb' : aad L = 0) by (rewrite Hb; lra).
  assert (Hc' : bbc L = -1) by (rewrite Hc; lra).
  assert (He' : bbd L = -1) by (rewrite He; lra).
  assert (Hsq' : aac_sq L = 1) by (rewrite Hsq, Ha'; lra).
  rewrite Hsq', Ha', Hb', Hc', He' in *.
  assert (H2' : dd_2 L = -1) by (rewrite H2; lra).
  assert (H1c' : dd_1c L = 2) by (rewrite H1c; lra).
  assert (H0' : dd_0 L = 1) by (rewrite H0; lra).
  rewrite H2', H1c', H0' in *.
  assert (H4' : d4_4 L = 5) by (rewrite H4; lra).
  assert (H42' : d4_2 L = -6) by (rewrite H42; lra).
  assert (H40' : d4_0 L = 1) by (rewrite H40; lra).
  assert (Hd : discriminant L = 16)
    by (unfold discriminant; scalar_R; rewrite H4', H42', H40'; lra).
  repeat split; trivial; try lra.
  rewrite Ht, Hd. scalar_R. replace 16 with (4 * 4) by lra.
  apply sqrt_square. lra.
Qed.
Lemma quotients_swap (p0 p1 p2 q0 q1 q2 : Vec2 R) :
  let L := compute_locals p0 p1 p2 q0 q1 q2 in
  let L' := compute_locals p0 p2 p1 q0 q2 q1 in
  aac L' = aac L /\ aad L' = aad L /\ bbc L' = bbc L /\ bbd L' = bbd L.
Proof.
  intros L L'.
  destruct (compute_locals_fields p0 p1 p2 q0 q1 q2)
    as (Hx1 & Hy1 & Hx2 & Hy2 & Hden & Ha & Hb & Hc & He).
  destruct (compute_locals_fields p0 p2 p1 q0 q2 q1)
    as (Hx1' & Hy1' & Hx2' & Hy2' & Hden' & Ha' & Hb' & Hc' & He').
  fold L in Hx1, Hy1, Hx2, Hy2, Hden, Ha, Hb, Hc, He.
  fold L' in Hx1', Hy1', Hx2', Hy2', Hden', Ha', Hb', Hc', He'.
  rewrite Ha, Hb, Hc, He, Ha', Hb', Hc', He', Hden, Hden'.
  rewrite Hx1', Hy1', Hx2', Hy2', Hx1, Hy1, Hx2, Hy2. scalar_R.
  set (u := Vec2_sub p1 p0). set (v := Vec2_sub p2 p0).
  set (u' := Vec2_sub q1 q0). set (v' := Vec2_sub q2 q0).
  replace (Vec2_x v * Vec2_y u - Vec2_y v * Vec2_x u)
    with (- (Vec2_x u * Vec2_y v - Vec2_y u * Vec2_x v)) by ring.
  rewrite !Rdiv_opp_r, <- !Rdiv_opp_l.
  repeat split; f_equal; ring.
Qed.

(** X7. In exact arithmetic, exchanging the second and third
    correspondences does not change what the orthographic solver
    returns. *)
Theorem orthographic_order_of_last_two
  p0 p1 p2 r1 r1' q0 q1 q2 r2 r2' (E : list (Mat3 R)) :
  ThreePointsRelativePose (p0 :: p2 :: p1 :: r1') (q0 :: q2 :: q1 :: r2') E
  = ThreePointsRelativePose (p0 :: p1 :: p2 :: r1) (q0 :: q1 :: q2 :: r2) E.
Proof.
  etransitivity; [apply ThreePointsRelativePose_eq |].
  symmetry. etransitivity; [apply ThreePointsRelativePose_eq |]. symmetry.
  destruct (quotients_swap p0 p1 p2 q0 q1 q2) as (Ha & Hb & Hc & He).
  destruct (polynomial_ext p0 p2 p1 q0 q2 q1 p0 p1 p2 q0 q1 q2 Ha Hb Hc He)
    as (Hsq & H4 & H42 & Ht & Htc).
  cbv zeta.
  set (L := compute_locals p0 p1 p2 q0 q1 q2) in *.
  set (L' := compute_locals p0 p2 p1 q0 q2 q1) in *.
  clearbody L L'. rewrite H42, Ht.
  destruct (parameters_ext L' L Ha Hb Hc He Hsq H4 Htc (d4_2 L + tmp L)%S)
    as (-> & -> & -> & -> & ->).
  destruct (parameters_ext L' L Ha Hb Hc He Hsq H4 Htc (d4_2 L - tmp L)%S)
    as (-> & -> & -> & -> & ->).
  reflexivity.
Qed.

Lemma Vec2_sub_translate (p q t : Vec2 R) :
  Vec2_sub (Vec2_add p t) (Vec2_add q t) = Vec2_sub p q.
Proof.
  unfold Vec2_sub, Vec2_add. cbn. f_equal; ring.
Qed.

Lemma compute_locals_translate (p0 p1 p2 q0 q1 q2 t1 t2 : Vec2 R) :
  compute_locals (Vec2_add p0 t1) (Vec2_add p1 t1) (Vec2_add p2 t1)
                 (Vec2_add q0 t2) (Vec2_add q1 t2) (Vec2_add q2 t2)
  = compute_locals p0 p1 p2 q0 q1 q2.
Proof.
  unfold compute_locals. rewrite !Vec2_sub_translate. reflexivity.
Qed.

(** X6. In exact arithmetic, translating the first image by [t1] and the
    second by [t2] leaves asol, bsol, csol and dsol of both candidates
    unchanged, and esol becomes
    esol - asol*t1.x - bsol*t1.y - csol*t2.x - dsol*t2.y. *)
Theorem orthographic_translation
  p0 p1 p2 q0 q1 q2 (t1 t2 : Vec2 R) (E : list (Mat3 R)) :
  let same := fun C C' : Mat3 R =>
    m02 C' = m02 C /\ m12 C' = m12 C /\ m20 C' = m20 C /\ m21 C' = m21 C /\
    m22 C' = m22 C - m02 C * Vec2_x t1 - m12 C * Vec2_y t1
             - m20 C * Vec2_x t2 - m21 C * Vec2_y t2 in
  exists E1 E2 E1' E2' : Mat3 R,
    ThreePointsRelativePose [p0; p1; p2] [q0; q1; q2] E = Some (E ++ [E1; E2]) /\
    ThreePointsRelativePose
      [Vec2_add p0 t1; Vec2_add p1 t1; Vec2_add p2 t1]
      [Vec2_add q0 t2; Vec2_add q1 t2; Vec2_add q2 t2] E
    = Some (E ++ [E1'; E2']) /\
    same E1 E1' /\ same E2 E2'.
Proof.
  intros same.
  eexists. eexists. eexists. eexists.
  split; [apply ThreePointsRelativePose_eq |].
  split; [apply ThreePointsRelativePose_eq |].
  rewrite compute_locals_translate.
  unfold same, esol, Vec2_add. cbn [m02 m12 m20 m21 m22 Vec2_x Vec2_y]. scalar_R.
  split; (repeat split; ring).
Qed.

(** X5. In exact arithmetic, every matrix either solver appends has
    determinant 0. *)
Theorem candidates_are_singular :
  (forall p0 p1 p2 r1 q0 q1 q2 r2 (E : list (Mat3 R)),
     exists E1 E2 : Mat3 R,
       ThreePointsRelativePose (p0 :: p1 :: p2 :: r1) (q0 :: q1 :: q2 :: r2) E
       = Some (E ++ [E1; E2]) /\
       Mat3_det E1 = 0 /\ Mat3_det E2 = 0) /\
  (forall (eigenvectors_leftCols1 : Mat4 R -> Vec4 R)
          a0 a1 a2 ra b0 b1 b2 rb (pvec_E : list (Mat3 R)),
     exists E : Mat3 R,
       ThreePointUprightRelativePoseSolver_Solve eigenvectors_leftCols1
         (a0 :: a1 :: a2 :: ra) (b0 :: b1 :: b2 :: rb) pvec_E
       = Some (pvec_E ++ [E]) /\
       Mat3_det E = 0).
Proof.
  split.
  - intros. eexists. eexists. split; [apply ThreePointsRelativePose_eq |].
    unfold Mat3_det. cbn [m00 m01 m02 m10 m11 m12 m20 m21 m22]. scalar_R.
    split; ring.
  - intros. eexists. split; [apply Solve_eq |].
    unfold Mat3_det, essential_of_nullspace. cbn. ring.
Qed.

(** X9. In exact arithmetic, the squares of the three residuals of the
    matrix the upright solver appends sum to [n^T (A^T A) n], which is at
    least 0; when the selected n is an eigenvector of [A^T A] for the
    eigenvalue lambda, the sum is [lambda * (n . n)]. *)
Theorem upright_residuals_and_eigenvalue
  (eigenvectors_leftCols1 : Mat4 R -> Vec4 R)
  a0 a1 a2 ra b0 b1 b2 rb (pvec_E : list (Mat3 R)) :
  let A := mkMat34 (action_row a0 b0) (action_row a1 b1) (action_row a2 b2) in
  let M := Mat34_transpose_mul A in
  let n := eigenvectors_leftCols1 M in
  exists E : Mat3 R,
    ThreePointUprightRelativePoseSolver_Solve eigenvectors_leftCols1
      (a0 :: a1 :: a2 :: ra) (b0 :: b1 :: b2 :: rb) pvec_E
    = Some (pvec_E ++ [E]) /\
    let total := upright_residual E a0 b0 * upright_residual E a0 b0
               + upright_residual E a1 b1 * upright_residual E a1 b1
               + upright_residual E a2 b2 * upright_residual E a2 b2 in
    total = Vec4_dot n (Mat4_mul_vec M n) /\
    0 <= Vec4_dot n (Mat4_mul_vec M n) /\
    (forall lambda : R,
       Mat4_mul_vec M n = Vec4_scale lambda n ->
       total = lambda * Vec4_dot n n).
Proof.
  intros A M n.
  exists (essential_of_nullspace n). split; [apply Solve_eq |].
  cbv zeta. rewrite !upright_residual_row.
  assert (Hq : Vec4_dot n (Mat4_mul_vec M n)
               = Vec4_dot (action_row a0 b0) n * Vec4_dot (action_row a0 b0) n
                 + Vec4_dot (action_row a1 b1) n * Vec4_dot (action_row a1 b1) n
                 + Vec4_dot (action_row a2 b2) n * Vec4_dot (action_row a2 b2) n).
  { unfold M, A. generalize (action_row a0 b0), (action_row a1 b1), (action_row a2 b2), n.
    intros [r0 r1 r2 r3] [s0 s1 s2 s3] [t0 t1 t2 t3] [n0 n1 n2 n3].
    unfold Vec4_dot, Mat4_mul_vec, Mat34_transpose_mul, AtA_row, AtA_coeff.
    cbn. ring. }
  split; [rewrite Hq; ring |].
  split.
  - rewrite Hq. 
    generalize (Vec4_dot (action_row a0 b0) n), (Vec4_dot (action_row a1 b1) n),
      (Vec4_dot (action_row a2 b2) n). intros x y z. nra.
  - intros lambda Hl.
    transitivity (Vec4_dot n (Mat4_mul_vec M n)); [rewrite Hq; ring |].
    rewrite Hl. destruct n as [n0 n1 n2 n3]. unfold Vec4_dot, Vec4_scale. cbn. ring.
Qed.

Lemma action_row_scaling (a b : Vec3 R) (n : Vec4 R) (s t : R) :
  Vec4_dot (action_row (Vec3_scale s a) (Vec3_scale t b)) n
  = s * t * Vec4_dot (action_row a b) n.
Proof.
  destruct a, b, n. unfold Vec4_dot, action_row, Vec3_scale. cbn. ring.
Qed.

End ExactAlgebra.

(* ================================================================== *)
(** * IEEE-754 binary64: symmetry and further sources of NaN *)

Section Binary64Edges.

Local Open Scope scalar_scope.

Implicit Types x y : double.

Lemma mul_comm_double x y : x * y = y * x.
Proof.
  destruct x as [sx|sx| |sx mx ex], y as [sy|sy| |sy my ey]; cbn;
    rewrite ?(xorb_comm sy sx); try reflexivity.
  now rewrite (Pos.mul_comm my mx), (Z.add_comm ey ex).
Qed.

(** X11. The matrix [A^T A] handed to the self-adjoint eigen-solver is
    symmetric entry by entry, on doubles as in exact arithmetic. *)
Theorem product_is_symmetric :
  (forall (A : Mat34 double) (i j : nat), AtA_coeff A i j = AtA_coeff A j i) /\
  (forall (A : Mat34 R) (i j : nat), AtA_coeff A i j = AtA_coeff A j i).
Proof.
  split; intros A i j; unfold AtA_coeff.
  - now rewrite (mul_comm_double (Vec4_coeff (A_row0 A) i)),
      (mul_comm_double (Vec4_coeff (A_row1 A) i)),
      (mul_comm_double (Vec4_coeff (A_row2 A) i)).
  - cbn [sadd smul R_Scalar]. ring.
Qed.

Lemma is_nan_eq x : is_nan x = true -> x = S754_nan.
Proof. now destruct x. Qed.

Create Rewrite HintDb nan_steps.
Hint Rewrite add_nan_l add_nan_r sub_nan_l sub_nan_r mul_nan_l mul_nan_r
  div_nan_l div_nan_r opp_nan sqrt_nan : nan_steps.

(** With NaN for [dsol], the other parameters of the root are NaN. *)
Lemma parameters_of_nan_dsol (L : Locals double) (root x1_00 x1_10 x2_00 x2_10 : double) :
  dsol L root = S754_nan ->
  csol L root = S754_nan /\
  asol L root = S754_nan /\
  bsol L root = S754_nan /\
  esol L root x1_00 x1_10 x2_00 x2_10 = S754_nan.
Proof.
  intros Hd.
  assert (Hc : csol L root = S754_nan)
    by (unfold csol; rewrite Hd; now autorewrite with nan_steps).
  assert (Ha : asol L root = S754_nan)
    by (unfold asol; rewrite Hc; now autorewrite with nan_steps).
  assert (Hb : bsol L root = S754_nan)
    by (unfold bsol; rewrite Hc; now autorewrite with nan_steps).
  repeat split; trivial.
  unfold esol. rewrite Ha. now autorewrite with nan_steps.
Qed.

(** X13. On doubles, when the argument of the square root of dsol is
    negative at a root, the entries asol, bsol, csol, dsol and esol of the
    candidate of that root are NaN, whatever the sign of the
    discriminant. *)
Theorem negative_radicand_gives_nan
  p0 p1 p2 r1 q0 q1 q2 r2 (E : list (Mat3 double)) :
  let L := compute_locals p0 p1 p2 q0 q1 q2 in
  exists E1 E2 : Mat3 double,
    ThreePointsRelativePose (p0 :: p1 :: p2 :: r1) (q0 :: q1 :: q2 :: r2) E
    = Some (E ++ [E1; E2]) /\
    (is_negative (dsol_radicand L (d4_2 L + tmp L)) = true ->
     forallb is_nan (free_entries E1) = true) /\
    (is_negative (dsol_radicand L (d4_2 L - tmp L)) = true ->
     forallb is_nan (free_entries E2) = true).
Proof.
  intros L.
  eexists. eexists. split; [apply ThreePointsRelativePose_eq |].
  fold L. clearbody L.
  assert (Hnan : forall root,
            is_negative (dsol_radicand L root) = true ->
            forallb is_nan
              [asol L root; bsol L root; csol L root; dsol L root;
               esol L root (Vec2_x p0) (Vec2_y p0) (Vec2_x q0) (Vec2_y q0)]
            = true).
  { intros root H. apply sqrt_negative in H.
    change (dsol L root = S754_nan) in H.
    destruct (parameters_of_nan_dsol L root (Vec2_x p0) (Vec2_y p0)
                (Vec2_x q0) (Vec2_y q0) H) as (-> & -> & -> & ->).
    rewrite H. reflexivity. }
  split; intros H; apply Hnan; exact H.
Qed.

(** NaN in [denom] or in one of the quotients [aac], [aad] reaches [tmp]. *)
Lemma tmp_of_nan_quotient (p0 p1 p2 q0 q1 q2 : Vec2 double) :
  let L := compute_locals p0 p1 p2 q0 q1 q2 in
  denom L = S754_nan \/ aac L = S754_nan \/ aad L = S754_nan ->
  tmp L = S754_nan.
Proof.
  intros L H.
  destruct (compute_locals_fields p0 p1 p2 q0 q1 q2)
    as (_ & _ & _ & _ & _ & Ha & Hb & _ & _).
  destruct (compute_locals_polynomial p0 p1 p2 q0 q1 q2)
    as (Hsq & H2 & _ & _ & H44 & H42 & _ & Ht & _).
  fold L in Ha, Hb, Hsq, H2, H44, H42, Ht. clearbody L.
  assert (Hq : aac L = S754_nan \/ aad L = S754_nan).
  { destruct H as [H | H]; [| exact H].
    left. rewrite Ha, H. now autorewrite with nan_steps. }
  assert (Hdd : dd_2 L = S754_nan).
  { rewrite H2, Hsq. destruct Hq as [-> | ->]; now autorewrite with nan_steps. }
  assert (Hd4 : d4_4 L = S754_nan)
    by (rewrite H44, Hdd; now autorewrite with nan_steps).
  assert (Hd2 : d4_2 L = S754_nan)
    by (rewrite H42, Hdd; now autorewrite with nan_steps).
  rewrite Ht. unfold discriminant. rewrite Hd4, Hd2.
  now autorewrite with nan_steps.
Qed.

(** X12. On doubles, when a coordinate of one of the three
    correspondences is NaN, the entries asol, bsol, csol, dsol and esol of
    both candidates of the orthographic solver are NaN. *)
Theorem nan_coordinate_gives_nan
  p0 p1 p2 r1 q0 q1 q2 r2 (E : list (Mat3 double)) :
  existsb is_nan (coordinates p0 p1 p2 ++ coordinates q0 q1 q2) = true ->
  exists E1 E2 : Mat3 double,
    ThreePointsRelativePose (p0 :: p1 :: p2 :: r1) (q0 :: q1 :: q2 :: r2) E
    = Some (E ++ [E1; E2]) /\
    forallb is_nan (free_entries E1 ++ free_entries E2) = true.
Proof.
  intros H.
  eexists. eexists. split; [apply ThreePointsRelativePose_eq |].
  apply candidates_of_nan_tmp.
  apply tmp_of_nan_quotient.
  destruct (compute_locals_fields p0 p1 p2 q0 q1 q2)
    as (Hx1 & Hy1 & Hx2 & Hy2 & Hden & Ha & Hb & _ & _).
  set (L := compute_locals p0 p1 p2 q0 q1 q2) in *. clearbody L.
  rewrite Ha, Hb, Hden, Hx1, Hy1, Hx2, Hy2.
  unfold Vec2_sub. cbn [Vec2_x Vec2_y].
  unfold coordinates in H. cbn [app existsb] in H.
  repeat (apply orb_true_iff in H; destruct H as [H | H]);
    try discriminate H; apply is_nan_eq in H; rewrite H;
    autorewrite with nan_steps; auto.
Qed.

End Binary64Edges.

(* ================================================================== *)
(** * Exact arithmetic: order of the correspondences, roots and norms *)

Section ExactOrder.

Local Open Scope R_scope.

Ltac scalar_R := cbn [lit sadd ssub smul sdiv sopp ssqrt R_Scalar] in *.

Lemma quotients_swap_first (p0 p1 p2 q0 q1 q2 : Vec2 R) :
  let L := compute_locals p0 p1 p2 q0 q1 q2 in
  let L' := compute_locals p1 p0 p2 q1 q0 q2 in
  aac L' = aac L /\ aad L' = aad L /\ bbc L' = bbc L /\ bbd L' = bbd L.
Proof.
  intros L L'.
  destruct (compute_locals_fields p0 p1 p2 q0 q1 q2)
    as (Hx1 & Hy1 & Hx2 & Hy2 & Hden & Ha & Hb & Hc & He).
  destruct (compute_locals_fields p1 p0 p2 q1 q0 q2)
    as (Hx1' & Hy1' & Hx2' & Hy2' & Hden' & Ha' & Hb' & Hc' & He').
  fold L in Hx1, Hy1, Hx2, Hy2, Hden, Ha, Hb, Hc, He.
  fold L' in Hx1', Hy1', Hx2', Hy2', Hden', Ha', Hb', Hc', He'.
  clearbody L L'.
  rewrite Ha, Hb, Hc, He, Ha', Hb', Hc', He', Hden, Hden'.
  rewrite Hx1', Hy1', Hx2', Hy2', Hx1, Hy1, Hx2, Hy2.
  unfold Vec2_sub. cbn [Vec2_x Vec2_y]. scalar_R.
  destruct p0 as [x0 y0], p1 as [x1 y1], p2 as [x2 y2],
           q0 as [u0 v0], q1 as [u1 v1], q2 as [u2 v2].
  cbn [Vec2_x Vec2_y].
  replace ((x0 - x1) * (y2 - y1) - (y0 - y1) * (x2 - x1))
    with (- ((x1 - x0) * (y2 - y0) - (y1 - y0) * (x2 - x0))) by ring.
  rewrite !Rdiv_opp_r, <- !Rdiv_opp_l.
  repeat split; f_equal; ring.
Qed.

(** X8. In exact arithmetic, when the three points of the first image are
    not collinear, exchanging the first and second correspondences does not
    change what the orthographic solver returns. *)
Theorem orthographic_order_of_first_two
  p0 p1 p2 r1 r1' q0 q1 q2 r2 r2' (E : list (Mat3 R)) :
  denom (compute_locals p0 p1 p2 q0 q1 q2) <> 0 ->
  ThreePointsRelativePose (p1 :: p0 :: p2 :: r1') (q1 :: q0 :: q2 :: r2') E
  = ThreePointsRelativePose (p0 :: p1 :: p2 :: r1) (q0 :: q1 :: q2 :: r2) E.
Proof.
  intros Hd.
  etransitivity; [apply ThreePointsRelativePose_eq |].
  symmetry. etransitivity; [apply ThreePointsRelativePose_eq |]. symmetry.
  destruct (quotients_swap_first p0 p1 p2 q0 q1 q2) as (Ha & Hb & Hc & He).
  destruct (polynomial_ext p1 p0 p2 q1 q0 q2 p0 p1 p2 q0 q1 q2 Ha Hb Hc He)
    as (Hsq & H4 & H42 & Ht & Htc).
  assert (Hedge : forall c d : R,
            (aac (compute_locals p0 p1 p2 q0 q1 q2) * c
             + aad (compute_locals p0 p1 p2 q0 q1 q2) * d) * (Vec2_x p1 - Vec2_x p0)
            + (bbc (compute_locals p0 p1 p2 q0 q1 q2) * c
               + bbd (compute_locals p0 p1 p2 q0 q1 q2) * d) * (Vec2_y p1 - Vec2_y p0)
            + c * (Vec2_x q1 - Vec2_x q0) + d * (Vec2_y q1 - Vec2_y q0) = 0).
  { intros c d. apply (edge_relations p0 p1 p2 q0 q1 q2 Hd c d). }
  cbv zeta.
  set (L := compute_locals p0 p1 p2 q0 q1 q2) in *.
  set (L' := compute_locals p1 p0 p2 q1 q0 q2) in *.
  clearbody L L'. rewrite H42, Ht.
  assert (Hcand : forall root,
    mkMat3 0 0 (asol L' root) 0 0 (bsol L' root) (csol L' root) (dsol L' root)
      (esol L' root (Vec2_x p1) (Vec2_y p1) (Vec2_x q1) (Vec2_y q1))
    = mkMat3 0 0 (asol L root) 0 0 (bsol L root) (csol L root) (dsol L root)
      (esol L root (Vec2_x p0) (Vec2_y p0) (Vec2_x q0) (Vec2_y q0))).
  { intros root.
    destruct (parameters_ext L' L Ha Hb Hc He Hsq H4 Htc root)
      as (-> & -> & -> & -> & ->).
    f_equal. unfold esol, asol, bsol. scalar_R.
    pose proof (Hedge (csol L root) (dsol L root)) as Hz. lra. }
  change (lit 0) with 0. rewrite !Hcand. reflexivity.
Qed.

(** X4. In exact arithmetic, with a discriminant that is not negative and
    [d4_4] not 0, the arguments of the square roots of dsol at the two
    roots have the same sign: both are at least 0 when [d4_2 <= 0], both
    are at most 0 when [0 <= d4_2]. *)
Theorem radicand_sign (p0 p1 p2 q0 q1 q2 : Vec2 R) :
  let L := compute_locals p0 p1 p2 q0 q1 q2 in
  0 <= discriminant L ->
  d4_4 L <> 0 ->
  (d4_2 L <= 0 ->
   0 <= dsol_radicand L (d4_2 L + tmp L) /\
   0 <= dsol_radicand L (d4_2 L - tmp L)) /\
  (0 <= d4_2 L ->
   dsol_radicand L (d4_2 L + tmp L) <= 0 /\
   dsol_radicand L (d4_2 L - tmp L) <= 0).
Proof.
  intros L Hdisc H44.
  destruct (compute_locals_polynomial p0 p1 p2 q0 q1 q2)
    as (_ & _ & _ & _ & H4 & _ & H40 & Ht & _).
  fold L in H4, H40, Ht. clearbody L.
  assert (Htt : tmp L * tmp L = discriminant L)
    by (rewrite Ht; scalar_R; now apply sqrt_sqrt).
  assert (Htpos : 0 <= tmp L) by (rewrite Ht; scalar_R; apply sqrt_pos).
  unfold discriminant in *. unfold dsol_radicand. scalar_R.
  assert (H4pos : 0 < d4_4 L).
  { assert (0 <= d4_4 L) by (rewrite H4; nra). lra. }
  assert (H0pos : 0 <= d4_0 L) by (rewrite H40; nra).
  assert (Hle : tmp L * tmp L <= d4_2 L * d4_2 L) by nra.
  assert (Hinv : 0 < / d4_4 L) by (now apply Rinv_0_lt_compat).
  unfold Rdiv.
  set (t := tmp L) in *. set (B := d4_2 L) in *. set (i := / d4_4 L) in *.
  split; intros HB.
  - assert (t <= - B) by nra.
    split; nra.
  - assert (t <= B) by nra.
    split; nra.
Qed.

(** X10. In exact arithmetic, rescaling the two bearing vectors of a
    correspondence by s and t multiplies the product of its row of A with
    any vector by s*t; for s and t not 0 the row annihilates the same
    vectors as before. *)
Theorem rescaled_bearings_same_nullspace (a b : Vec3 R) (n : Vec4 R) (s t : R) :
  s <> 0 -> t <> 0 ->
  Vec4_dot (action_row (Vec3_scale s a) (Vec3_scale t b)) n
  = s * t * Vec4_dot (action_row a b) n /\
  (Vec4_dot (action_row (Vec3_scale s a) (Vec3_scale t b)) n = 0
   <-> Vec4_dot (action_row a b) n = 0).
Proof.
  intros Hs Ht.
  assert (Hscale : Vec4_dot (action_row (Vec3_scale s a) (Vec3_scale t b)) n
                   = s * t * Vec4_dot (action_row a b) n)
    by apply action_row_scaling.
  split; [exact Hscale |].
  rewrite Hscale. split.
  - intros H. apply Rmult_integral in H. destruct H as [H | H]; [| exact H].
    apply Rmult_integral in H. destruct H; contradiction.
  - intros ->. ring.
Qed.

(** X2. In exact arithmetic, with a discriminant that is not negative and
    [d4_4] not 0, the entry dsol of a candidate whose square root has an
    argument that is not negative solves
    d4_4 * d^4 + d4_2 * d^2 + d4_0 = 0. *)
Theorem orthographic_dsol_solves_quartic
  p0 p1 p2 r1 q0 q1 q2 r2 (E : list (Mat3 R)) :
  let L := compute_locals p0 p1 p2 q0 q1 q2 in
  let quartic := fun d : R =>
    d4_4 L * (d * d * d * d) + d4_2 L * (d * d) + d4_0 L in
  0 <= discriminant L ->
  d4_4 L <> 0 ->
  exists E1 E2 : Mat3 R,
    ThreePointsRelativePose (p0 :: p1 :: p2 :: r1) (q0 :: q1 :: q2 :: r2) E
    = Some (E ++ [E1; E2]) /\
    (0 <= dsol_radicand L (d4_2 L + tmp L) -> quartic (m21 E1) = 0) /\
    (0 <= dsol_radicand L (d4_2 L - tmp L) -> quartic (m21 E2) = 0).
Proof.
  intros L quartic Hdisc H44.
  eexists. eexists. split; [apply ThreePointsRelativePose_eq |].
  cbn [m21]. fold L.
  split; intros Hrad.
  - pose proof (dsol_square_is_root p0 p1 p2 q0 q1 q2 (d4_2 L + tmp L)
                  (or_introl eq_refl) Hdisc H44 Hrad) as Hq.
    cbv zeta in Hq. fold L in Hq. unfold quartic.
    etransitivity; [| exact Hq]. scalar_R. ring.
  - pose proof (dsol_square_is_root p0 p1 p2 q0 q1 q2 (d4_2 L - tmp L)
                  (or_intror eq_refl) Hdisc H44 Hrad) as Hq.
    cbv zeta in Hq. fold L in Hq. unfold quartic.
    etransitivity; [| exact Hq]. scalar_R. ring.
Qed.

(** X3. In exact arithmetic, under the conditions of X2 and when the
    divisor of csol is not 0, a candidate satisfies
    csol^2 + dsol^2 = 1 and asol^2 + bsol^2 = 1. *)
Theorem orthographic_candidates_unit_norm
  p0 p1 p2 r1 q0 q1 q2 r2 (E : list (Mat3 R)) :
  let L := compute_locals p0 p1 p2 q0 q1 q2 in
  let unit_norm := fun C : Mat3 R =>
    m20 C * m20 C + m21 C * m21 C = 1 /\ m02 C * m02 C + m12 C * m12 C = 1 in
  0 <= discriminant L ->
  d4_4 L <> 0 ->
  exists E1 E2 : Mat3 R,
    ThreePointsRelativePose (p0 :: p1 :: p2 :: r1) (q0 :: q1 :: q2 :: r2) E
    = Some (E ++ [E1; E2]) /\
    (0 <= dsol_radicand L (d4_2 L + tmp L) ->
     csol_divisor L (d4_2 L + tmp L) <> 0 -> unit_norm E1) /\
    (0 <= dsol_radicand L (d4_2 L - tmp L) ->
     csol_divisor L (d4_2 L - tmp L) <> 0 -> unit_norm E2).
Proof.
  intros L unit_norm Hdisc H44.
  eexists. eexists. split; [apply ThreePointsRelativePose_eq |].
  unfold unit_norm. cbn [m20 m21 m02 m12]. fold L.
  split; intros Hrad Hdiv.
  - apply (candidate_normalised p0 p1 p2 q0 q1 q2 (d4_2 L + tmp L)
             (or_introl eq_refl) Hdisc H44 Hrad Hdiv).
  - apply (candidate_normalised p0 p1 p2 q0 q1 q2 (d4_2 L - tmp L)
             (or_intror eq_refl) Hdisc H44 Hrad Hdiv).
Qed.

End ExactOrder.

(* ================================================================== *)
(** * The further theorems at the sample inputs *)

Section ExactWitnesses.
Local Open Scope R_scope.

Lemma unit_triangle_denom :
  denom (compute_locals (mkVec2 0 0) (mkVec2 1 0) (mkVec2 0 1)
           (mkVec2 0 0) (mkVec2 1 0) (mkVec2 1 1)) = 1.
Proof. cbn. lra. Qed.

Lemma sheared_triangle_minus_root :
  let L := compute_locals (mkVec2 0 0) (mkVec2 1 0) (mkVec2 0 1)
                          (mkVec2 0 0) (mkVec2 1 0) (mkVec2 1 1) in
  (0 <= discriminant L /\ d4_4 L <> 0 /\ d4_2 L <= 0 /\
   dsol_radicand L (d4_2 L - tmp L) = 1 /\
   csol_divisor L (d4_2 L - tmp L) = 2).
Proof.
  intros L.
  destruct sheared_triangle_locals
    as (Ha & Hb & Hc & He & Hsq & Htc & H4 & H42 & H40 & Hd & Ht).
  fold L in Ha, Hb, Hc, He, Hsq, Htc, H4, H42, H40, Hd, Ht. clearbody L.
  assert (Hrad : dsol_radicand L (d4_2 L - tmp L) = 1).
  { unfold dsol_radicand. cbn [lit sadd ssub smul sdiv sopp ssqrt R_Scalar].
    rewrite H4, H42, Ht. lra. }
  assert (Hdiv : csol_divisor L (d4_2 L - tmp L) = 2).
  { unfold csol_divisor.
    change (dsol L (d4_2 L - tmp L)) with (sqrt (dsol_radicand L (d4_2 L - tmp L))).
    rewrite Hrad, sqrt_1. cbn [lit sadd ssub smul sdiv sopp ssqrt R_Scalar].
    rewrite Ha, Hb, Hc, He. lra. }
  repeat split; solve [assumption | lra].
Qed.

Lemma orthographic_all_pairs_exact_witness :
  exists E1 E2 : Mat3 R,
    ThreePointsRelativePose unit_triangle sheared_triangle [] = Some [E1; E2] /\
    Forall (fun C => orthographic_residual C (mkVec2 0 0) (mkVec2 0 0) = 0 /\
                     orthographic_residual C (mkVec2 1 0) (mkVec2 1 0) = 0 /\
                     orthographic_residual C (mkVec2 0 1) (mkVec2 1 1) = 0)
           [E1; E2].
Proof.
  apply (orthographic_all_pairs_exact
           (mkVec2 0 0) (mkVec2 1 0) (mkVec2 0 1) []
           (mkVec2 0 0) (mkVec2 1 0) (mkVec2 1 1) [] []).
  rewrite unit_triangle_denom. lra.
Defined.

Lemma orthographic_dsol_solves_quartic_witness :
  exists E1 E2 : Mat3 R,
    ThreePointsRelativePose unit_triangle sheared_triangle [] = Some [E1; E2] /\
    let L := compute_locals (mkVec2 0 0) (mkVec2 1 0) (mkVec2 0 1)
                            (mkVec2 0 0) (mkVec2 1 0) (mkVec2 1 1) in
    d4_4 L * (m21 E2 * m21 E2 * m21 E2 * m21 E2) + d4_2 L * (m21 E2 * m21 E2)
    + d4_0 L = 0.
Proof.
  destruct sheared_triangle_minus_root as (Hd & H4 & _ & Hrad & _).
  destruct (orthographic_dsol_solves_quartic
              (mkVec2 0 0) (mkVec2 1 0) (mkVec2 0 1) []
              (mkVec2 0 0) (mkVec2 1 0) (mkVec2 1 1) [] [] Hd H4)
    as (E1 & E2 & HE & _ & Hq).
  exists E1, E2. split; [exact HE |].
  apply Hq. rewrite Hrad. lra.
Defined.

Lemma orthographic_candidates_unit_norm_witness :
  exists E1 E2 : Mat3 R,
    ThreePointsRelativePose unit_triangle sheared_triangle [] = Some [E1; E2] /\
    (m20 E2 * m20 E2 + m21 E2 * m21 E2 = 1 /\
     m02 E2 * m02 E2 + m12 E2 * m12 E2 = 1).
Proof.
  destruct sheared_triangle_minus_root as (Hd & H4 & _ & Hrad & Hdiv).
  destruct (orthographic_candidates_unit_norm
              (mkVec2 0 0) (mkVec2 1 0) (mkVec2 0 1) []
              (mkVec2 0 0) (mkVec2 1 0) (mkVec2 1 1) [] [] Hd H4)
    as (E1 & E2 & HE & _ & Hn).
  exists E1, E2. split; [exact HE |].
  apply Hn; [rewrite Hrad | rewrite Hdiv]; lra.
Defined.

Lemma radicand_sign_witness :
  let L := compute_locals (mkVec2 0 0) (mkVec2 1 0) (mkVec2 0 1)
                          (mkVec2 0 0) (mkVec2 1 0) (mkVec2 1 1) in
  (0 <= dsol_radicand L (d4_2 L + tmp L) /\
   0 <= dsol_radicand L (d4_2 L - tmp L)).
Proof.
  destruct sheared_triangle_minus_root as (Hd & H4 & H42 & _ & _).
  exact (proj1 (radicand_sign (mkVec2 0 0) (mkVec2 1 0) (mkVec2 0 1)
                  (mkVec2 0 0) (mkVec2 1 0) (mkVec2 1 1) Hd H4) H42).
Defined.

Lemma orthographic_order_of_first_two_witness :
  ThreePointsRelativePose [mkVec2 1 0; mkVec2 0 0; mkVec2 0 1]
                          [mkVec2 1 0; mkVec2 0 0; mkVec2 1 1] []
  = ThreePointsRelativePose unit_triangle sheared_triangle [].
Proof.
  apply (orthographic_order_of_first_two
           (mkVec2 0 0) (mkVec2 1 0) (mkVec2 0 1) [] []
           (mkVec2 0 0) (mkVec2 1 0) (mkVec2 1 1) [] [] []).
  rewrite unit_triangle_denom. lra.
Defined.

Lemma upright_residuals_and_eigenvalue_witness :
  exists E : Mat3 R,
    ThreePointUprightRelativePoseSolver_Solve translated_nullspace
      translated_a translated_b [] = Some [E] /\
    (upright_residual E (mkVec3 1 1 2) (mkVec3 0 1 2)
       * upright_residual E (mkVec3 1 1 2) (mkVec3 0 1 2)
     + upright_residual E (mkVec3 3 2 1) (mkVec3 2 2 1)
       * upright_residual E (mkVec3 3 2 1) (mkVec3 2 2 1)
     + upright_residual E (mkVec3 0 1 1) (mkVec3 (-1) 1 1)
       * upright_residual E (mkVec3 0 1 1) (mkVec3 (-1) 1 1)
     = 0 * Vec4_dot (mkVec4 0 (-1) 0 1) (mkVec4 0 (-1) 0 1)).
Proof.
  destruct (upright_residuals_and_eigenvalue translated_nullspace
              (mkVec3 1 1 2) (mkVec3 3 2 1) (mkVec3 0 1 1) []
              (mkVec3 0 1 2) (mkVec3 2 2 1) (mkVec3 (-1) 1 1) [] [])
    as (E & HE & _ & _ & Hl).
  exists E. split; [exact HE |].
  apply (Hl 0).
  unfold Mat4_mul_vec, Vec4_scale, translated_nullspace, Mat34_transpose_mul,
    AtA_row, AtA_coeff, Vec4_dot, action_row.
  cbn. f_equal; lra.
Defined.

Lemma rescaled_bearings_same_nullspace_witness :
  (Vec4_dot (action_row (Vec3_scale 2 (mkVec3 1 1 2)) (Vec3_scale 3 (mkVec3 0 1 2)))
     (mkVec4 0 (-1) 0 1) = 0
   <-> Vec4_dot (action_row (mkVec3 1 1 2) (mkVec3 0 1 2)) (mkVec4 0 (-1) 0 1) = 0).
Proof.
  apply (rescaled_bearings_same_nullspace (mkVec3 1 1 2) (mkVec3 0 1 2)
           (mkVec4 0 (-1) 0 1) 2 3); lra.
Defined.

End ExactWitnesses.

Lemma negative_radicand_gives_nan_witness :
  is_negative (discriminant (compute_locals (pt 0 0) (pt 1 0) (pt 0 1)
                               (pt 0 0) (pt 1 2) (pt 1 (-2)))) = false /\
  exists E1 E2 : Mat3 double,
    ThreePointsRelativePose triangle_x1 enlarged_x2 [] = Some [E1; E2] /\
    forallb is_nan (free_entries E1) = true /\
    forallb is_nan (free_entries E2) = true.
Proof.
  split; [vm_compute; reflexivity |].
  destruct (negative_radicand_gives_nan (pt 0 0) (pt 1 0) (pt 0 1) []
              (pt 0 0) (pt 1 2) (pt 1 (-2)) [] [])
    as (E1 & E2 & HE & H1 & H2).
  exists E1, E2. split; [exact HE |].
  split; [apply H1 | apply H2]; vm_compute; reflexivity.
Defined.

Lemma nan_coordinate_gives_nan_witness :
  exists E1 E2 : Mat3 double,
    ThreePointsRelativePose [pt 0 0; pt 1 0; pt 0 1]
      [pt 0 0; mkVec2 (lit 1) S754_nan; pt 3 2] [] = Some [E1; E2] /\
    forallb is_nan (free_entries E1 ++ free_entries E2) = true.
Proof.
  apply (nan_coordinate_gives_nan (pt 0 0) (pt 1 0) (pt 0 1) []
           (pt 0 0) (mkVec2 (lit 1) S754_nan) (pt 3 2) [] []).
  vm_compute. reflexivity.
Defined.
